(** * The JOS kernel monitor ([kern/monitor.c]): stack backtrace, command
    tokenizer and dispatch loop.

The development is a shallow embedding of [kern/monitor.c].  The
machine words the inline assembly reads are 32-bit values kept in [Z],
memory is a byte-addressed store read little-endian, the text written
with [cprintf] is a trace of calls (format string and arguments), and
the line buffer is a list of characters updated in place by index. *)

From Stdlib Require Import ZArith Lia Bool Ascii String DecimalString Sorted.
From stdpp Require Import base list strings.

Local Open Scope Z_scope.

(** ** 32-bit machine state *)

Module Machine.

Definition wrap32 (x : Z) : Z := x mod 2 ^ 32.

(** Byte-addressed memory: the byte stored at every 32-bit address. *)
Definition mem := Z -> Z.

Definition load8 (m : mem) (a : Z) : Z := m (wrap32 a) mod 256.

(** [movl (a), r]: little-endian 32-bit read. *)
Definition load32 (m : mem) (a : Z) : Z :=
  load8 m a + 2 ^ 8 * load8 m (a + 1)
  + 2 ^ 16 * load8 m (a + 2) + 2 ^ 24 * load8 m (a + 3).

Definition store8 (m : mem) (a v : Z) : mem :=
  fun x => if x =? wrap32 a then v mod 256 else m x.

(** [movl r, (a)] / [pushl]: little-endian 32-bit write. *)
Definition store32 (m : mem) (a v : Z) : mem :=
  store8 (store8 (store8 (store8 m a v)
    (a + 1) (v / 2 ^ 8)) (a + 2) (v / 2 ^ 16)) (a + 3) (v / 2 ^ 24).

(** The registers the monitor's assembly depends on, and memory. *)
Record cpu := { memory : mem; ebp : Z; esp : Z }.

(** [call f] followed by the prologue [pushl %ebp; movl %esp,%ebp] that
    every function of the kernel starts with (frame pointers are always
    established): the return address goes to [esp-4], the caller's frame
    base to [esp-8], which becomes the callee's frame base. *)
Definition call_enter (ret : Z) (s : cpu) : cpu :=
  let sp1 := wrap32 (esp s - 4) in
  let m1 := store32 (memory s) sp1 ret in
  let sp2 := wrap32 (sp1 - 4) in
  let m2 := store32 m1 sp2 (ebp s) in
  {| memory := m2; ebp := sp2; esp := sp2 |}.

(** [leave; ret]: the caller's registers are back, memory keeps what the
    callee's frame wrote below the caller's stack pointer. *)
Definition call_return (caller callee : cpu) : cpu :=
  {| memory := memory callee; ebp := ebp caller; esp := esp caller |}.

(** One step along the frame chain: the saved caller frame base. *)
Definition chain_step (m : mem) (fb : Z) : Z := load32 m fb.

Fixpoint chain (m : mem) (n : nat) (fb : Z) : Z :=
  match n with
  | O => fb
  | S k => chain m k (chain_step m fb)
  end.

End Machine.
Export Machine.

(** ** Console output *)

Module Console.

Local Open Scope string_scope.

Definition nl : string := String "010"%char EmptyString.
Definition tab : string := String "009"%char EmptyString.

(** An argument of the variadic [cprintf]: an [int]-sized word or a
    pointer to a NUL-terminated string (held as its characters). *)
Inductive carg := AInt (n : Z) | AStr (s : string).

(** The 32-bit word as a C [int]. *)
Definition to_int (n : Z) : Z :=
  let w := wrap32 n in if (w <? 2 ^ 31)%Z then w else (w - 2 ^ 32)%Z.

Definition hex_digit (d : Z) : ascii :=
  match d with
  | 0 => "0" | 1 => "1" | 2 => "2" | 3 => "3" | 4 => "4" | 5 => "5"
  | 6 => "6" | 7 => "7" | 8 => "8" | 9 => "9" | 10 => "a" | 11 => "b"
  | 12 => "c" | 13 => "d" | 14 => "e" | _ => "f"
  end%Z%char.

Fixpoint hex_digits (width : nat) (n : Z) (acc : string) : string :=
  match width with
  | O => acc
  | S w => hex_digits w (n / 16) (String (hex_digit (n mod 16)) acc)
  end.

(** Modelled from the spec: the conversions of the formatted-text sink
    ([cprintf], not under src/) that the monitor uses, after the output
    format of section 6: [%08x] is the word as 8 hexadecimal digits, [%d]
    a decimal integer, [%s] a string, and [%.*s] a string truncated to
    the length passed before it. *)
Definition fmt_08x (n : Z) : string := hex_digits 8 (wrap32 n) "".

Definition fmt_d (n : Z) : string :=
  DecimalString.NilZero.string_of_int (Z.to_int (to_int n)).

Definition fmt_prec_s (prec : Z) (s : string) : string :=
  if (to_int prec <? 0)%Z then s
  else String.substring 0 (Z.to_nat (to_int prec)) s.

Fixpoint vprintfmt (fmt : string) (ap : list carg) : string :=
  match fmt with
  | EmptyString => EmptyString
  | String "%"%char (String "s"%char rest) =>
      match ap with
      | AStr s :: ap' => s ++ vprintfmt rest ap'
      | _ => vprintfmt rest (tail ap)
      end
  | String "%"%char (String "d"%char rest) =>
      match ap with
      | AInt n :: ap' => fmt_d n ++ vprintfmt rest ap'
      | _ => vprintfmt rest (tail ap)
      end
  | String "%"%char
      (String "0"%char (String "8"%char (String "x"%char rest))) =>
      match ap with
      | AInt n :: ap' => fmt_08x n ++ vprintfmt rest ap'
      | _ => vprintfmt rest (tail ap)
      end
  | String "%"%char
      (String "."%char (String "*"%char (String "s"%char rest))) =>
      match ap with
      | AInt p :: AStr s :: ap' => fmt_prec_s p s ++ vprintfmt rest ap'
      | _ => vprintfmt rest (tail (tail ap))
      end
  | String c rest => String c (vprintfmt rest ap)
  end.

End Console.
Export Console.

(** ** The monitor *)

Module Monitor.

(** What [debuginfo_eip] fills in ([struct Eipdebuginfo] of
    [kern/kdebug.h]); the function name is the string at
    [eip_fn_name], of which [eip_fn_namelen] characters belong to it. *)
Record Eipdebuginfo := {
  eip_file : string;
  eip_line : Z;
  eip_fn_name : string;
  eip_fn_namelen : Z;
  eip_fn_addr : Z
}.

(** What the monitor takes from the rest of the kernel: linker symbols,
    the constants and macros of [inc/memlayout.h] and [inc/types.h],
    the symbol resolver, and the address of the instruction after
    [call print_curr_trace] in [mon_backtrace]. *)
Record kernel := {
  bootstacktop : Z;
  debuginfo_eip : Z -> Z * Eipdebuginfo;
  sym_start : Z;
  sym_entry : Z;
  sym_etext : Z;
  sym_edata : Z;
  sym_end : Z;
  KERNBASE : Z;
  ROUNDUP : Z -> Z -> Z;
  ra_print_curr_trace : Z
}.

(** The handlers a [struct Command] can point to. *)
Inductive cmd_func := mon_help_fn | mon_kerninfo_fn | mon_backtrace_fn.

Record Command := { name : string; desc : string; func : cmd_func }.

Definition commands : list Command :=
  [ {| name := "help"; desc := "Display this list of commands";
       func := mon_help_fn |};
    {| name := "kerninfo"; desc := "Display information about the kernel";
       func := mon_kerninfo_fn |};
    {| name := "backtrace"; desc := "Display stack backtrace";
       func := mon_backtrace_fn |} ].

Definition NCOMMANDS : nat := length commands.

(** What an execution does that can be observed: text written with
    [cprintf] and calls through [commands[i].func]. *)
Inductive event :=
| Cprintf (fmt : string) (ap : list carg)
| Invoke (f : cmd_func) (argc : Z) (argv : list string) (tf : Z).

Definition is_invoke (e : event) : bool :=
  match e with Invoke _ _ _ _ => true | Cprintf _ _ => false end.

(** The text a trace puts on the console. *)
Definition console_text (e : event) : string :=
  match e with
  | Cprintf fmt ap => vprintfmt fmt ap
  | Invoke _ _ _ _ => ""
  end.

(** *** Basic commands *)

Definition mon_help (argc : Z) (argv : list string) (tf : Z)
  : list event * Z :=
  (map (fun c => Cprintf ("%s - %s" +:+ nl) [AStr (name c); AStr (desc c)])
       commands, 0).

Definition mon_kerninfo (K : kernel) (argc : Z) (argv : list string)
  (tf : Z) : list event * Z :=
  ([ Cprintf ("Special kernel symbols:" +:+ nl) [];
     Cprintf ("  _start                  %08x (phys)" +:+ nl)
       [AInt (sym_start K)];
     Cprintf ("  entry  %08x (virt)  %08x (phys)" +:+ nl)
       [AInt (sym_entry K); AInt (wrap32 (sym_entry K - KERNBASE K))];
     Cprintf ("  etext  %08x (virt)  %08x (phys)" +:+ nl)
       [AInt (sym_etext K); AInt (wrap32 (sym_etext K - KERNBASE K))];
     Cprintf ("  edata  %08x (virt)  %08x (phys)" +:+ nl)
       [AInt (sym_edata K); AInt (wrap32 (sym_edata K - KERNBASE K))];
     Cprintf ("  end    %08x (virt)  %08x (phys)" +:+ nl)
       [AInt (sym_end K); AInt (wrap32 (sym_end K - KERNBASE K))];
     Cprintf ("Kernel executable memory footprint: %dKB" +:+ nl)
       [AInt (Z.quot (ROUNDUP K (sym_end K - sym_entry K) 1024) 1024)] ],
   0).

(** *** Stack backtrace *)

Definition fmt_frame : string :=
  "  ebp %08x eip %08x args %08x %08x %08x %08x %08x" +:+ nl.

Definition fmt_info : string := "%s:%d: %.*s+%d" +:+ nl.

(** The five [movl 0x8(%1)] ... [movl 0x18(%1)] reads. *)
Definition read_args (m : mem) (prev_ebp : Z) : list Z :=
  [ load32 m (prev_ebp + 8); load32 m (prev_ebp + 12);
    load32 m (prev_ebp + 16); load32 m (prev_ebp + 20);
    load32 m (prev_ebp + 24) ].

Definition frame_line (prev_ebp prev_eip : Z) (prev_args : list Z)
  : event :=
  Cprintf fmt_frame (AInt prev_ebp :: AInt prev_eip :: map AInt prev_args).

(** [if (!debuginfo_eip(prev_eip, &info)) cprintf(...)]; the two call
    sites differ in the text before the file name. *)
Definition info_lines (K : kernel) (lead : string) (prev_eip : Z)
  : list event :=
  let '(r, info) := debuginfo_eip K prev_eip in
  if r =? 0 then
    let fn_addr := wrap32 (prev_eip - wrap32 (eip_fn_addr info)) in
    [ Cprintf (lead +:+ fmt_info)
        [ AStr (eip_file info); AInt (eip_line info);
          AInt (eip_fn_namelen info); AStr (eip_fn_name info);
          AInt fn_addr ] ]
  else [].

(** [s] is the machine inside [print_curr_trace]: [ebp s] is the frame
    base of [print_curr_trace] itself. *)
Definition print_curr_trace (K : kernel) (s : cpu) : list event :=
  let m := memory s in
  let prev_ebp := load32 m (ebp s) in
  let prev_eip := load32 m (ebp s + 4) in
  let prev_args := read_args m prev_ebp in
  frame_line prev_ebp prev_eip prev_args :: info_lines K tab prev_eip.

(** The address the loop of [mon_backtrace] compares with:
    [(uint32_t)bootstacktop-8]. *)
Definition sentinel (K : kernel) : Z := wrap32 (bootstacktop K - 8).

(** One pass through the body of the [while] loop of [mon_backtrace] at
    [curr_bp]: what it writes, and the value it leaves in [curr_bp]. *)
Definition backtrace_pass (K : kernel) (m : mem) (curr_bp : Z)
  : list event * Z :=
  let prev_ebp := load32 m curr_bp in
  let prev_eip := load32 m (curr_bp + 4) in
  let prev_args := read_args m prev_ebp in
  (frame_line prev_ebp prev_eip prev_args
   :: info_lines K (" " +:+ tab) prev_eip,
   load32 m curr_bp).

(** The [while] loop of [mon_backtrace]; [None] when [fuel] passes did
    not reach the sentinel. *)
Fixpoint backtrace_loop (K : kernel) (fuel : nat) (m : mem) (curr_bp : Z)
  : option (list event) :=
  if curr_bp =? sentinel K then Some []
  else
    match fuel with
    | O => None
    | S fuel' =>
        let '(out, next_bp) := backtrace_pass K m curr_bp in
        match backtrace_loop K fuel' m next_bp with
        | Some rest => Some (out ++ rest)
        | None => None
        end
    end.

(** [s] is the machine inside [mon_backtrace].  The frame pushed for
    [print_curr_trace] stays in memory below [esp s] after it returns.
    [cprintf] and [debuginfo_eip] write below the frame base of
    [mon_backtrace] only (their own frames and the local [info]); the
    memory the loop reads is kept as it is across them, as the
    specification has it for one pass of the unwinder. *)
Definition mon_backtrace (K : kernel) (fuel : nat) (argc : Z)
  (argv : list string) (tf : Z) (s : cpu) : option (list event * Z) :=
  let out0 := [Cprintf ("Stack backtrace:" +:+ nl) []] in
  let s1 := call_enter (ra_print_curr_trace K) s in
  let out1 := print_curr_trace K s1 in
  let s2 := call_return s s1 in
  let curr_bp := wrap32 (ebp s2) in
  match backtrace_loop K fuel (memory s2) curr_bp with
  | Some out2 => Some (out0 ++ out1 ++ out2, 0)
  | None => None
  end.

(** *** Kernel monitor command interpreter *)

Definition WHITESPACE : string :=
  String "009"%char (String "013"%char (String "010"%char
    (String " "%char EmptyString))).

Definition MAXARGS : nat := 16.

Definition NUL : ascii := "000"%char.

(** [*buf]: the character at index [p] of the line buffer.  The line
    reader hands over a NUL-terminated buffer; the end of the list
    reads as that terminator. *)
Definition deref (buf : list ascii) (p : nat) : ascii :=
  default NUL (buf !! p).

(** Modelled from the spec: [strchr] (lib/string.c, not under src/)
    tells whether the character occurs in the string; with [WHITESPACE]
    it is the tokenizer's whitespace test. *)
Fixpoint strchr (s : string) (c : ascii) : bool :=
  match s with
  | EmptyString => false
  | String d r => if Ascii.eqb d c then true else strchr r c
  end.

(** The loop that gobbles whitespace: while [*buf] is not NUL and is in
    [WHITESPACE], store NUL at [buf] and advance it. *)
Fixpoint gobble (fuel : nat) (buf : list ascii) (p : nat)
  : list ascii * nat :=
  match fuel with
  | O => (buf, p)
  | S fuel' =>
      if negb (Ascii.eqb (deref buf p) NUL) && strchr WHITESPACE (deref buf p)
      then gobble fuel' (<[p := NUL]> buf) (S p)
      else (buf, p)
  end.

(** The loop that scans past an argument: while [*buf] is not NUL and
    not in [WHITESPACE], advance [buf]. *)
Fixpoint scan_arg (fuel : nat) (buf : list ascii) (p : nat) : nat :=
  match fuel with
  | O => p
  | S fuel' =>
      if negb (Ascii.eqb (deref buf p) NUL)
         && negb (strchr WHITESPACE (deref buf p))
      then scan_arg fuel' buf (S p)
      else p
  end.

(** The state the parsing loop of [runcmd] leaves: the line buffer, the
    pointers saved in [argv] (indices into the buffer), the final value
    of [buf], and whether it left through "Too many arguments". *)
Record parsed := {
  p_buf : list ascii;
  p_argv : list nat;
  p_pos : nat;
  p_too_many : bool
}.

(** The [while (1)] loop of [runcmd]; every pass that goes round again
    has stored one more pointer, so [MAXARGS] passes are enough. *)
Fixpoint parse_loop (fuel : nat) (buf : list ascii) (p : nat)
  (argv : list nat) : option parsed :=
  match fuel with
  | O => None
  | S fuel' =>
      let '(buf1, p1) := gobble (length buf) buf p in
      if Ascii.eqb (deref buf1 p1) NUL then
        Some {| p_buf := buf1; p_argv := argv; p_pos := p1;
                p_too_many := false |}
      else if Nat.eqb (length argv) (MAXARGS - 1) then
        Some {| p_buf := buf1; p_argv := argv; p_pos := p1;
                p_too_many := true |}
      else
        parse_loop fuel' buf1 (scan_arg (length buf1) buf1 p1)
          (argv ++ [p1])
  end.

Definition runcmd_parse (buf : list ascii) : option parsed :=
  parse_loop MAXARGS buf 0%nat [].

(** The NUL-terminated string that starts at index [p]. *)
Fixpoint cstring (l : list ascii) : string :=
  match l with
  | [] => EmptyString
  | c :: r => if Ascii.eqb c NUL then EmptyString else String c (cstring r)
  end.

Definition str_at (buf : list ascii) (p : nat) : string :=
  cstring (drop p buf).

(** Modelled from the spec: [strcmp] (lib/string.c, not under src/)
    returns 0 exactly on equal strings, which makes the [for] loop of
    [runcmd] the [lookup] of the first command with that name. *)
Fixpoint lookup_command (cmds : list Command) (arg0 : string)
  : option Command :=
  match cmds with
  | [] => None
  | c :: rest =>
      if String.eqb arg0 (name c) then Some c else lookup_command rest arg0
  end.

(** How a call through a [func] pointer runs: the handler's output and
    return value, [None] when it does not return; [hs] is the machine
    inside the handler that is called. *)
Definition handler_call : Type :=
  cmd_func -> Z -> list string -> Z -> cpu -> option (list event * Z).

(** The handlers of this file behind the [func] pointers. *)
Definition call_func (K : kernel) (fuel : nat) : handler_call :=
  fun f argc argv tf hs =>
  match f with
  | mon_help_fn => Some (mon_help argc argv tf)
  | mon_kerninfo_fn => Some (mon_kerninfo K argc argv tf)
  | mon_backtrace_fn => mon_backtrace K fuel argc argv tf hs
  end.

Definition runcmd_with (call : handler_call) (buf : list ascii) (tf : Z)
  (hs : cpu) : option (list event * Z) :=
  match runcmd_parse buf with
  | None => None
  | Some t =>
      if p_too_many t then
        Some ([Cprintf ("Too many arguments (max %d)" +:+ nl)
                 [AInt (Z.of_nat MAXARGS)]], 0)
      else
        let argc := Z.of_nat (length (p_argv t)) in
        let argv := map (str_at (p_buf t)) (p_argv t) in
        match argv with
        | [] => Some ([], 0)
        | arg0 :: _ =>
            match lookup_command commands arg0 with
            | Some c =>
                match call (func c) argc argv tf hs with
                | Some (out, r) =>
                    Some (Invoke (func c) argc argv tf :: out, r)
                | None => None
                end
            | None =>
                Some ([Cprintf ("Unknown command '%s'" +:+ nl)
                         [AStr arg0]], 0)
            end
        end
  end.

Definition runcmd (K : kernel) (fuel : nat) (buf : list ascii) (tf : Z)
  (hs : cpu) : option (list event * Z) :=
  runcmd_with (call_func K fuel) buf tf hs.

(** *** The dispatch loop *)

Inductive mon_state := Reading | Exit.

(** The [while (1)] loop of [monitor] over the lines the reader returns
    ([None] for a null line), each with the machine its handler runs
    in.  When the lines are used up the loop is back in [readline]. *)
Fixpoint monitor_loop (call : handler_call) (tf : Z)
  (lines : list (option (list ascii) * cpu))
  : option (list event * mon_state) :=
  match lines with
  | [] => Some ([], Reading)
  | (None, _) :: rest => monitor_loop call tf rest
  | (Some buf, hs) :: rest =>
      match runcmd_with call buf tf hs with
      | None => None
      | Some (out, r) =>
          if r <? 0 then Some (out, Exit)
          else
            match monitor_loop call tf rest with
            | Some (out', st) => Some (out ++ out', st)
            | None => None
            end
      end
  end.

Definition monitor_with (call : handler_call) (tf : Z)
  (lines : list (option (list ascii) * cpu))
  : option (list event * mon_state) :=
  let welcome :=
    [ Cprintf ("Welcome to the JOS kernel monitor!" +:+ nl) [];
      Cprintf ("Type 'help' for a list of commands." +:+ nl) [] ] in
  match monitor_loop call tf lines with
  | Some (out, st) => Some (welcome ++ out, st)
  | None => None
  end.

Definition monitor (K : kernel) (fuel : nat) (tf : Z)
  (lines : list (option (list ascii) * cpu))
  : option (list event * mon_state) :=
  monitor_with (call_func K fuel) tf lines.

End Monitor.
Export Monitor.

(** ** Observations on traces and lines *)

Module Observe.

(** A Frame Record of the specification: what one primary line of the
    backtrace reports. *)
Record FrameRecord := {
  frame_base : Z;
  return_address : Z;
  saved_args : list Z
}.

Definition arg_word (a : carg) : option Z :=
  match a with AInt n => Some n | AStr _ => None end.

(** The record a trace event reports, for the events that are primary
    [ebp/eip/args] lines. *)
Definition frame_record_of (e : event) : option FrameRecord :=
  match e with
  | Cprintf fmt (AInt b :: AInt i :: args) =>
      if String.eqb fmt fmt_frame then
        Some {| frame_base := b; return_address := i;
                saved_args := omap arg_word args |}
      else None
  | _ => None
  end.

Definition frame_records (out : list event) : list FrameRecord :=
  omap frame_record_of out.

(** The memory and the frame base the loop of [mon_backtrace] starts
    from when [mon_backtrace] runs in machine [s]. *)
Definition unwind_memory (K : kernel) (s : cpu) : mem :=
  memory (call_return s (call_enter (ra_print_curr_trace K) s)).

Definition unwind_start (s : cpu) : Z := wrap32 (ebp s).

(** The frame chain from [fb] reaches the sentinel after exactly [d]
    steps: the depth of the call stack. *)
Definition stack_depth (K : kernel) (m : mem) (fb : Z) (d : nat) : Prop :=
  chain m d fb = sentinel K /\
  forall k, (k < d)%nat -> chain m k fb <> sentinel K.

(** The Frame Reader of the specification at frame base [fb]: the word
    at [fb], the word at [fb+4], and the five words at offsets 8 to 0x18
    from the word read at [fb]. *)
Definition read_frame (m : mem) (fb : Z) : FrameRecord :=
  {| frame_base := load32 m fb;
     return_address := load32 m (fb + 4);
     saved_args := read_args m (load32 m fb) |}.

(** The records read at the first [d] frame bases of the chain. *)
Fixpoint frames (m : mem) (d : nat) (fb : Z) : list FrameRecord :=
  match d with
  | O => []
  | S k => read_frame m fb :: frames m k (chain_step m fb)
  end.

(** The lines that report one record: the primary line and what the
    resolver adds for its return address. *)
Definition frame_block (K : kernel) (lead : string) (r : FrameRecord)
  : list event :=
  frame_line (frame_base r) (return_address r) (saved_args r)
  :: info_lines K lead (return_address r).

(** The record [print_curr_trace] reports when called from the machine
    [s] of [mon_backtrace]: the frame of [mon_backtrace] itself. *)
Definition current_frame (K : kernel) (s : cpu) : FrameRecord :=
  {| frame_base := unwind_start s;
     return_address := wrap32 (ra_print_curr_trace K);
     saved_args := read_args (unwind_memory K s) (unwind_start s) |}.

(** What a backtrace over a stack of depth [d] writes. *)
Definition backtrace_output (K : kernel) (s : cpu) (d : nat) : list event :=
  Cprintf ("Stack backtrace:" +:+ nl) []
  :: frame_block K tab (current_frame K s)
  ++ concat (map (frame_block K (" " +:+ tab))
              (frames (unwind_memory K s) d (unwind_start s))).

(** The Symbol Resolver of the specification: the debug information for
    an address, when [debuginfo_eip] reports success. *)
Definition resolve (K : kernel) (addr : Z) : option Eipdebuginfo :=
  let '(r, info) := debuginfo_eip K addr in
  if r =? 0 then Some info else None.

(** The secondary line of the specification for a resolved return
    address: file, line, the function name cut to its reported length,
    and the return address minus the start of the function. *)
Definition annotation_text (lead : string) (ret : Z) (info : Eipdebuginfo)
  : string :=
  lead +:+ eip_file info +:+ ":" +:+ fmt_d (eip_line info) +:+ ": "
  +:+ fmt_prec_s (eip_fn_namelen info) (eip_fn_name info)
  +:+ "+" +:+ fmt_d (ret - eip_fn_addr info) +:+ nl.

(** The lines [block] report the record [rec]: the primary line alone
    when its return address does not resolve, and, when it does, the
    primary line and a secondary line with the text of the
    specification (after the tab, or space and tab, that the call site
    puts first). *)
Definition reports (K : kernel) (rec : FrameRecord) (block : list event)
  : Prop :=
  exists primary,
    frame_record_of primary = Some rec /\
    match resolve K (return_address rec) with
    | Some info =>
        exists lead second,
          block = [primary; second] /\
          (lead = tab \/ lead = " " +:+ tab) /\
          frame_record_of second = None /\
          console_text second
          = annotation_text lead (return_address rec) info
    | None => block = [primary]
    end.

(** The two notices of [runcmd]. *)
Definition too_many_line : event :=
  Cprintf ("Too many arguments (max %d)" +:+ nl) [AInt (Z.of_nat MAXARGS)].

Definition unknown_line (arg0 : string) : event :=
  Cprintf ("Unknown command '%s'" +:+ nl) [AStr arg0].

(** The two messages with which [monitor] starts. *)
Definition welcome : list event :=
  [ Cprintf ("Welcome to the JOS kernel monitor!" +:+ nl) [];
    Cprintf ("Type 'help' for a list of commands." +:+ nl) [] ].

(** Whitespace-separated tokens of a line, following the words of the
    specification: a token is a maximal run of characters other than
    whitespace, and the line ends at its NUL terminator. *)
Definition is_space (c : ascii) : bool := strchr WHITESPACE c.

Fixpoint take_word (l : list ascii) : string :=
  match l with
  | [] => EmptyString
  | c :: r =>
      if Ascii.eqb c NUL || is_space c then EmptyString
      else String c (take_word r)
  end.

Fixpoint words (at_start : bool) (l : list ascii) : list string :=
  match l with
  | [] => []
  | c :: r =>
      if Ascii.eqb c NUL then []
      else if is_space c then words true r
      else (if at_start then [String c (take_word r)] else [])
           ++ words false r
  end.

Definition spec_tokens (line : list ascii) : list string := words true line.

(** A line buffer holding the given text and its terminator. *)
Definition line_of (s : string) : list ascii :=
  list_ascii_of_string s ++ [NUL].

End Observe.
Export Observe.

(** ** Invariants of the parsing loop *)

Module Invariants.

Local Open Scope nat_scope.

(** The characters that make up an argument: neither the terminator nor
    whitespace. *)
Definition arg_char (c : ascii) : bool :=
  negb (Ascii.eqb c NUL) && negb (strchr WHITESPACE c).

(** An argument of the original line [buf0] starts at [q] and ends before
    [e]: a maximal run of argument characters. *)
Definition arg_run (buf0 : list ascii) (q e : nat) : Prop :=
  (q < e)%nat /\
  (forall i, (q <= i < e)%nat -> arg_char (deref buf0 i) = true) /\
  arg_char (deref buf0 e) = false /\
  (q = 0%nat \/ is_space (deref buf0 (q - 1)) = true).

(** What holds of the buffer [buf], the position [p] and the saved
    pointers [argv] whenever the parsing loop of [runcmd] is at its head or
    leaves, for the line [buf0] it was given. *)
Record parse_inv (buf0 buf : list ascii) (p : nat) (argv : list nat)
  : Prop := {
  inv_length : length buf = length buf0;
  inv_ahead : forall i, (p <= i)%nat -> deref buf i = deref buf0 i;
  inv_behind : forall i, (i < p)%nat ->
    deref buf0 i <> NUL /\
    deref buf i = if is_space (deref buf0 i) then NUL else deref buf0 i;
  inv_tokens :
    spec_tokens buf0
    = map (fun q => take_word (drop q buf0)) argv ++ words true (drop p buf0);
  inv_argv : Forall (fun q => exists e, (e <= p)%nat /\ arg_run buf0 q e) argv;
  inv_boundary :
    p = 0%nat \/ arg_char (deref buf0 p) = false
    \/ is_space (deref buf0 (p - 1)) = true
}.

(** How the parsing loop leaves: at the terminator of the line, or at the
    first character of an argument for which [argv] has no room. *)
Definition parse_final (buf0 : list ascii) (t : parsed) : Prop :=
  parse_inv buf0 (p_buf t) (p_pos t) (p_argv t) /\
  (length (p_argv t) <= MAXARGS - 1)%nat /\
  if p_too_many t then
    length (p_argv t) = (MAXARGS - 1)%nat /\
    arg_char (deref buf0 (p_pos t)) = true
  else deref buf0 (p_pos t) = NUL.

End Invariants.
Export Invariants.

(** ** Concrete machines and lines *)

Module Examples.

Definition info_backtrace : Eipdebuginfo :=
  {| eip_file := "kern/monitor.c"; eip_line := 98;
     eip_fn_name := "mon_backtrace:F(0,1)"; eip_fn_namelen := 13;
     eip_fn_addr := 0xf0100800 |}.

Definition info_unknown : Eipdebuginfo :=
  {| eip_file := "<unknown>"; eip_line := 0;
     eip_fn_name := "<unknown>"; eip_fn_namelen := 9;
     eip_fn_addr := 0 |}.

(** A kernel whose resolver knows one address only. *)
Definition K0 : kernel :=
  {| bootstacktop := 0xf0110000;
     debuginfo_eip := fun a =>
       if a =? 0xf0100850 then (0, info_backtrace) else (-1, info_unknown);
     sym_start := 0x0010000c; sym_entry := 0xf010000c;
     sym_etext := 0xf0101a00; sym_edata := 0xf0112300;
     sym_end := 0xf0112960; KERNBASE := 0xf0000000;
     ROUNDUP := fun n a => (n + a - 1) / a * a;
     ra_print_curr_trace := 0xf0100850 |}.

(** A boot stack with two callers above [mon_backtrace]: the frame at
    [0xf010ff78] was called from the frame at [0xf010ffb8], which was
    called from the outermost frame at [bootstacktop - 8]. *)
Definition m0 : mem :=
  store32 (store32 (store32 (store32 (store32 (store32 (fun _ => 0)
    0xf010ff78 0xf010ffb8) 0xf010ff7c 0xf0100a00)
    0xf010ffb8 0xf010fff8) 0xf010ffbc 0xf0100b00)
    0xf010ff80 7) 0xf010ffc0 9.

Definition s0 : cpu :=
  {| memory := m0; ebp := 0xf010ff78; esp := 0xf010ff00 |}.

(** The same stack with the chain bent into a cycle. *)
Definition s_cyclic : cpu :=
  {| memory := store32 m0 0xf010ffb8 0xf010ff78;
     ebp := 0xf010ff78; esp := 0xf010ff00 |}.

Definition line16 : list ascii :=
  line_of "unknown b c d e f g h i j k l m n o p".

Definition line17 : list ascii :=
  line_of "a b c d e f g h i j k l m n o p q".

Definition line_backtrace : list ascii :=
  line_of ("  backtrace   " +:+ nl).

Definition line_unknown : list ascii := line_of "unknown x".

(** A handler table in which [kerninfo] asks the monitor to exit. *)
Definition call_exit (f : cmd_func) (argc : Z) (argv : list string)
  (tf : Z) (hs : cpu) : option (list event * Z) :=
  match f with
  | mon_kerninfo_fn => Some ([], -1)
  | _ => Some ([], 0)
  end.

(** What the reader returns in three passes: a null line, [help] and
    [kerninfo]. *)
Definition lines_exit : list (option (list ascii) * cpu) :=
  [ (None, s0); (Some (line_of "help"), s0); (Some (line_of "kerninfo"), s0) ].

Definition out_exit : list event :=
  welcome ++ [ Invoke mon_help_fn 1 ["help"] 0;
               Invoke mon_kerninfo_fn 1 ["kerninfo"] 0 ].

Definition out_builtin : list event :=
  Eval vm_compute in
    match monitor K0 2 0 lines_exit with
    | Some (out, _) => out
    | None => []
    end.

End Examples.
Export Examples.

(** ** The dispatcher told by tokens *)

Module DispatchSpec.

(** What [runcmd] does with a line whose whitespace-separated tokens are
    [toks]: the notice for a line with no room in [argv], nothing for a
    line without tokens, and otherwise the handler registered under the
    first token, called with the number of tokens and the tokens. *)
Definition dispatch (call : handler_call) (toks : list string) (tf : Z)
  (hs : cpu) : option (list event * Z) :=
  if (MAXARGS - 1 <? length toks)%nat then Some ([too_many_line], 0)
  else
    match toks with
    | [] => Some ([], 0)
    | arg0 :: _ =>
        match lookup_command commands arg0 with
        | Some c =>
            let argc := Z.of_nat (length toks) in
            match call (func c) argc toks tf hs with
            | Some (out, r) => Some (Invoke (func c) argc toks tf :: out, r)
            | None => None
            end
        | None => Some ([unknown_line arg0], 0)
        end
    end.

(** The line [mon_help] writes for a command. *)
Definition help_text (c : Command) : string :=
  name c +:+ " - " +:+ desc c +:+ nl.

(** The saved pointer [q] is at an argument of the line that ends before
    [q']. *)
Definition arg_before (buf0 : list ascii) (q q' : nat) : Prop :=
  exists e, arg_run buf0 q e /\ (e < q')%nat.

(** A line of blanks, a line with stale text after its terminator, and a
    line that asks for help with arguments. *)
Definition line_blank : list ascii :=
  [" "%char; "009"%char; " "%char; NUL; "x"%char].

Definition line_stale : list ascii :=
  list_ascii_of_string "help" ++ NUL :: list_ascii_of_string " kerninfo".

Definition line_help : list ascii := line_of "help me now".

(** The index [q] is at the first character of a maximal run of
    characters of the line other than whitespace and the terminator. *)
Definition arg_start (buf : list ascii) (q : nat) : Prop :=
  arg_char (deref buf q) = true /\
  (q = 0%nat \/ is_space (deref buf (q - 1)) = true).

(** What the parsing loop of [runcmd] leaves for a line. *)
Definition parsed_of (buf : list ascii) : parsed :=
  match runcmd_parse buf with
  | Some t => t
  | None => {| p_buf := buf; p_argv := []; p_pos := 0; p_too_many := false |}
  end.

End DispatchSpec.
Export DispatchSpec.

(** * Proofs *)

Module MachineFacts.

Lemma wrap32_range x : 0 <= wrap32 x < 2 ^ 32.
Proof. unfold wrap32. apply Z.mod_pos_bound. lia. Qed.

Lemma wrap32_small x : 0 <= x < 2 ^ 32 -> wrap32 x = x.
Proof. intros H. unfold wrap32. apply Z.mod_small. exact H. Qed.

Lemma wrap32_idem x : wrap32 (wrap32 x) = wrap32 x.
Proof. apply wrap32_small, wrap32_range. Qed.

Lemma wrap32_add_l a b : wrap32 (wrap32 a + b) = wrap32 (a + b).
Proof. unfold wrap32. apply Zplus_mod_idemp_l. Qed.

Lemma wrap32_sub_r a b : wrap32 (a - wrap32 b) = wrap32 (a - b).
Proof. unfold wrap32. apply Zminus_mod_idemp_r. Qed.

(** Two offsets from one address name the same byte only when they are
    equal modulo the size of the address space. *)
Lemma wrap32_inj x y :
  wrap32 x = wrap32 y -> -2 ^ 32 < x - y < 2 ^ 32 -> x = y.
Proof.
  unfold wrap32. intros Heq Hd.
  pose proof (Z.div_mod x (2 ^ 32) ltac:(lia)) as Hx.
  pose proof (Z.div_mod y (2 ^ 32) ltac:(lia)) as Hy.
  rewrite Heq in Hx.
  assert (x - y = 2 ^ 32 * (x / 2 ^ 32 - y / 2 ^ 32)) by lia.
  nia.
Qed.

(** Decides the address comparisons left by reads of written bytes when
    the two addresses are a small known distance apart. *)
Ltac same_or_apart :=
  repeat match goal with
  | |- context [wrap32 ?x =? wrap32 ?y] =>
      let He := fresh "He" in
      destruct (Z.eqb_spec (wrap32 x) (wrap32 y)) as [He|He];
      [ try (exfalso; apply wrap32_inj in He; lia)
      | try (exfalso; apply He; f_equal; lia) ]
  end.

Lemma load8_store8 m a v b :
  load8 (store8 m a v) b
  = if wrap32 b =? wrap32 a then v mod 256 else load8 m b.
Proof.
  unfold load8, store8. destruct (wrap32 b =? wrap32 a); [|reflexivity].
  apply Z.mod_mod. lia.
Qed.

Lemma word_of_bytes v :
  v mod 256 + 2 ^ 8 * ((v / 2 ^ 8) mod 256)
  + 2 ^ 16 * ((v / 2 ^ 16) mod 256) + 2 ^ 24 * ((v / 2 ^ 24) mod 256)
  = wrap32 v.
Proof.
  unfold wrap32.
  change (2 ^ 32) with (2 ^ 8 * (2 ^ 8 * (2 ^ 8 * 2 ^ 8))).
  rewrite !Z.rem_mul_r by lia.
  rewrite !Z.div_div by lia.
  change (2 ^ 8 * 2 ^ 8) with (2 ^ 16).
  change (2 ^ 16 * 2 ^ 8) with (2 ^ 24).
  change (2 ^ 8) with 256. lia.
Qed.

Lemma load32_store32_same m a v : load32 (store32 m a v) a = wrap32 v.
Proof.
  unfold load32, store32. rewrite !load8_store8. same_or_apart.
  apply word_of_bytes.
Qed.

(** A 32-bit read sees no write to four bytes it does not touch. *)
Lemma load32_store32_other m a v b :
  (forall i j, 0 <= i < 4 -> 0 <= j < 4 -> wrap32 (b + i) <> wrap32 (a + j)) ->
  load32 (store32 m a v) b = load32 m b.
Proof.
  intros Hd. unfold load32, store32.
  pose proof (Hd 0) as H0. rewrite Z.add_0_r in H0.
  assert (Ha : forall i, 0 <= i < 4 ->
    wrap32 (b + i) <> wrap32 a /\ wrap32 (b + i) <> wrap32 (a + 1) /\
    wrap32 (b + i) <> wrap32 (a + 2) /\ wrap32 (b + i) <> wrap32 (a + 3)).
  { intros i Hi. pose proof (Hd i 0 Hi) as H. rewrite Z.add_0_r in H.
    repeat split; first [apply H | apply Hd]; lia. }
  pose proof (Ha 0) as A0. rewrite Z.add_0_r in A0.
  destruct A0 as (? & ? & ? & ?); [lia|].
  destruct (Ha 1) as (? & ? & ? & ?); [lia|].
  destruct (Ha 2) as (? & ? & ? & ?); [lia|].
  destruct (Ha 3) as (? & ? & ? & ?); [lia|].
  rewrite !load8_store8.
  repeat match goal with
  | |- context [wrap32 ?x =? wrap32 ?y] =>
      destruct (Z.eqb_spec (wrap32 x) (wrap32 y)); [contradiction|]
  end.
  reflexivity.
Qed.

Lemma load32_range m a : 0 <= load32 m a < 2 ^ 32.
Proof.
  unfold load32, load8.
  pose proof (Z.mod_pos_bound (m (wrap32 a)) 256 ltac:(lia)).
  pose proof (Z.mod_pos_bound (m (wrap32 (a + 1))) 256 ltac:(lia)).
  pose proof (Z.mod_pos_bound (m (wrap32 (a + 2))) 256 ltac:(lia)).
  pose proof (Z.mod_pos_bound (m (wrap32 (a + 3))) 256 ltac:(lia)).
  lia.
Qed.

Lemma load32_wrap m a : load32 m (wrap32 a) = load32 m a.
Proof.
  unfold load32, load8. rewrite !wrap32_add_l, wrap32_idem. reflexivity.
Qed.

Lemma load32_congr m a b : wrap32 a = wrap32 b -> load32 m a = load32 m b.
Proof. intros H. rewrite <- (load32_wrap m a), H. apply load32_wrap. Qed.

(** The frame [call_enter] pushes: the callee's frame base points at the
    saved frame base of the caller, and the return address lies above. *)
Lemma call_enter_saved_ebp ret s :
  load32 (memory (call_enter ret s)) (ebp (call_enter ret s)) = wrap32 (ebp s).
Proof. unfold call_enter. cbn [memory ebp]. apply load32_store32_same. Qed.

Lemma call_enter_return_address ret s :
  load32 (memory (call_enter ret s)) (ebp (call_enter ret s) + 4) = wrap32 ret.
Proof.
  unfold call_enter. cbn [memory ebp].
  set (sp1 := wrap32 (esp s - 4)).
  rewrite load32_store32_other.
  - rewrite (load32_congr _ (wrap32 (sp1 - 4) + 4) sp1).
    + apply load32_store32_same.
    + rewrite wrap32_add_l. f_equal. lia.
  - intros i j Hi Hj He. apply wrap32_inj in He; lia.
Qed.

End MachineFacts.

Module BacktraceFacts.

Import MachineFacts.

Lemma chain_S_r m n fb : chain m (S n) fb = chain_step m (chain m n fb).
Proof.
  revert fb. induction n as [|n IH]; intros fb; [reflexivity|].
  change (chain m (S (S n)) fb) with (chain m (S n) (chain_step m fb)).
  rewrite IH. reflexivity.
Qed.

Lemma stack_depth_unique K m fb d1 d2 :
  stack_depth K m fb d1 -> stack_depth K m fb d2 -> d1 = d2.
Proof.
  intros [H1 L1] [H2 L2].
  destruct (Nat.lt_trichotomy d1 d2) as [Hlt|[->|Hlt]]; [|reflexivity|].
  - exfalso. exact (L2 d1 Hlt H1).
  - exfalso. exact (L1 d2 Hlt H2).
Qed.

Lemma stack_depth_O K m fb : fb = sentinel K -> stack_depth K m fb 0.
Proof. intros ->. split; [reflexivity|]. intros k Hk. lia. Qed.

Lemma stack_depth_S K m fb d :
  fb <> sentinel K -> stack_depth K m (chain_step m fb) d ->
  stack_depth K m fb (S d).
Proof.
  intros Hne [Hd Hl]. split; [exact Hd|].
  intros [|k] Hk; [exact Hne|]. apply Hl. lia.
Qed.

Lemma stack_depth_step K m fb d :
  stack_depth K m fb (S d) ->
  fb <> sentinel K /\ stack_depth K m (chain_step m fb) d.
Proof.
  intros [Hd Hl]. split.
  - apply (Hl 0%nat). lia.
  - split; [exact Hd|]. intros k Hk. apply (Hl (S k)). lia.
Qed.

(** A chain that reaches the sentinel has a depth: the first step at
    which it does. *)
Lemma reaches_depth K m n : forall fb,
  chain m n fb = sentinel K ->
  exists d, (d <= n)%nat /\ stack_depth K m fb d.
Proof.
  induction n as [|n IH]; intros fb H.
  - exists 0%nat. split; [lia|]. apply stack_depth_O. exact H.
  - destruct (Z.eq_dec fb (sentinel K)) as [He|Hne].
    + exists 0%nat. split; [lia|]. apply stack_depth_O. exact He.
    + destruct (IH (chain_step m fb) H) as (d & Hd & Hs).
      exists (S d). split; [lia|]. apply stack_depth_S; assumption.
Qed.

Lemma frames_length m d : forall fb, length (frames m d fb) = d.
Proof. induction d as [|d IH]; intros fb; cbn; [|rewrite IH]; reflexivity. Qed.

Lemma frames_lookup m d : forall fb k,
  (k < d)%nat -> frames m d fb !! k = Some (read_frame m (chain m k fb)).
Proof.
  induction d as [|d IH]; intros fb k Hk; [lia|].
  destruct k as [|k]; [reflexivity|]. cbn. apply IH. lia.
Qed.

Lemma omap_arg_word (l : list Z) : omap arg_word (map AInt l) = l.
Proof. induction l as [|x l IH]; cbn; [|rewrite IH]; reflexivity. Qed.

Lemma frame_record_of_line b i args :
  frame_record_of (frame_line b i args)
  = Some {| frame_base := b; return_address := i; saved_args := args |}.
Proof.
  unfold frame_record_of, frame_line. rewrite String.eqb_refl, omap_arg_word.
  reflexivity.
Qed.

Lemma frame_records_app a b :
  frame_records (a ++ b) = frame_records a ++ frame_records b.
Proof. apply omap_app. Qed.

Lemma frame_records_info K lead eip :
  frame_records (info_lines K lead eip) = [].
Proof.
  unfold info_lines. destruct (debuginfo_eip K eip) as [r info].
  destruct (r =? 0); reflexivity.
Qed.

Lemma frame_records_block K lead r :
  frame_records (frame_block K lead r) = [r].
Proof.
  unfold frame_block, frame_records. cbn [omap list_omap].
  rewrite frame_record_of_line.
  fold (frame_records (info_lines K lead (return_address r))).
  rewrite frame_records_info. destruct r; reflexivity.
Qed.

Lemma frame_records_blocks K lead rs :
  frame_records (concat (map (frame_block K lead) rs)) = rs.
Proof.
  induction rs as [|r rs IH]; [reflexivity|].
  cbn [map concat]. rewrite frame_records_app, frame_records_block, IH.
  reflexivity.
Qed.

(** One pass of the loop: at the sentinel it is over, elsewhere it
    reports the frame read at [fb] and goes on from the saved frame base. *)
Lemma backtrace_loop_sentinel K fuel m fb :
  fb = sentinel K -> backtrace_loop K fuel m fb = Some [].
Proof.
  intros ->. destruct fuel; cbn; rewrite Z.eqb_refl; reflexivity.
Qed.

Lemma backtrace_loop_step K fuel m fb :
  fb <> sentinel K ->
  backtrace_loop K (S fuel) m fb
  = match backtrace_loop K fuel m (chain_step m fb) with
    | Some rest => Some (frame_block K (" " +:+ tab) (read_frame m fb) ++ rest)
    | None => None
    end.
Proof.
  intros Hne. cbn [backtrace_loop].
  destruct (Z.eqb_spec fb (sentinel K)); [contradiction|]. reflexivity.
Qed.

Lemma backtrace_loop_out_of_fuel K m fb :
  fb <> sentinel K -> backtrace_loop K 0 m fb = None.
Proof.
  intros Hne. cbn. destruct (Z.eqb_spec fb (sentinel K)); [contradiction|].
  reflexivity.
Qed.

(** With fuel for [d] passes the loop over a stack of depth [d] ends after
    reporting the [d] frames of the chain. *)
Lemma backtrace_loop_depth K m d : forall fuel fb,
  stack_depth K m fb d -> (d <= fuel)%nat ->
  backtrace_loop K fuel m fb
  = Some (concat (map (frame_block K (" " +:+ tab)) (frames m d fb))).
Proof.
  induction d as [|d IH]; intros fuel fb Hs Hf.
  - destruct Hs as [Hs _]. apply backtrace_loop_sentinel. exact Hs.
  - apply stack_depth_step in Hs. destruct Hs as [Hne Hs].
    destruct fuel as [|fuel]; [lia|].
    rewrite backtrace_loop_step by exact Hne.
    rewrite (IH fuel) by (assumption || lia). reflexivity.
Qed.

Lemma backtrace_loop_short K m d : forall fuel fb,
  stack_depth K m fb d -> (fuel < d)%nat ->
  backtrace_loop K fuel m fb = None.
Proof.
  induction d as [|d IH]; intros fuel fb Hs Hf; [lia|].
  apply stack_depth_step in Hs. destruct Hs as [Hne Hs].
  destruct fuel as [|fuel].
  - apply backtrace_loop_out_of_fuel. exact Hne.
  - rewrite backtrace_loop_step by exact Hne.
    rewrite (IH fuel) by (assumption || lia). reflexivity.
Qed.

(** A loop that ended went through a chain that reaches the sentinel. *)
Lemma backtrace_loop_inv K m : forall fuel fb out,
  backtrace_loop K fuel m fb = Some out ->
  exists d, (d <= fuel)%nat /\ stack_depth K m fb d /\
    out = concat (map (frame_block K (" " +:+ tab)) (frames m d fb)).
Proof.
  induction fuel as [|fuel IH]; intros fb out H.
  - destruct (Z.eq_dec fb (sentinel K)) as [He|Hne].
    + rewrite backtrace_loop_sentinel in H by exact He. inversion H.
      exists 0%nat. split; [lia|].
      split; [apply stack_depth_O; exact He|reflexivity].
    + rewrite backtrace_loop_out_of_fuel in H by exact Hne. discriminate.
  - destruct (Z.eq_dec fb (sentinel K)) as [He|Hne].
    + rewrite backtrace_loop_sentinel in H by exact He. inversion H.
      exists 0%nat. split; [lia|].
      split; [apply stack_depth_O; exact He|reflexivity].
    + rewrite backtrace_loop_step in H by exact Hne.
      destruct (backtrace_loop K fuel m (chain_step m fb)) as [rest|] eqn:Hr;
        [|discriminate].
      destruct (IH _ _ Hr) as (d & Hd & Hs & ->). inversion H.
      exists (S d). split; [lia|]. split; [apply stack_depth_S; assumption|].
      reflexivity.
Qed.

Lemma print_curr_trace_called K s :
  print_curr_trace K (call_enter (ra_print_curr_trace K) s)
  = frame_block K tab (current_frame K s).
Proof.
  unfold print_curr_trace, frame_block, current_frame.
  cbn [frame_base return_address saved_args].
  rewrite call_enter_saved_ebp, call_enter_return_address. reflexivity.
Qed.

Lemma mon_backtrace_depth K fuel argc argv tf s d :
  stack_depth K (unwind_memory K s) (unwind_start s) d ->
  (d <= fuel)%nat ->
  mon_backtrace K fuel argc argv tf s = Some (backtrace_output K s d, 0).
Proof.
  intros Hs Hf. unfold mon_backtrace.
  rewrite print_curr_trace_called.
  change (memory (call_return s (call_enter (ra_print_curr_trace K) s)))
    with (unwind_memory K s).
  change (wrap32 (ebp (call_return s (call_enter (ra_print_curr_trace K) s))))
    with (unwind_start s).
  rewrite (backtrace_loop_depth K _ d) by assumption. reflexivity.
Qed.

Lemma mon_backtrace_short K fuel argc argv tf s d :
  stack_depth K (unwind_memory K s) (unwind_start s) d ->
  (fuel < d)%nat ->
  mon_backtrace K fuel argc argv tf s = None.
Proof.
  intros Hs Hf. unfold mon_backtrace.
  change (memory (call_return s (call_enter (ra_print_curr_trace K) s)))
    with (unwind_memory K s).
  change (wrap32 (ebp (call_return s (call_enter (ra_print_curr_trace K) s))))
    with (unwind_start s).
  rewrite (backtrace_loop_short K _ d) by assumption. reflexivity.
Qed.

Lemma mon_backtrace_inv K fuel argc argv tf s out r :
  mon_backtrace K fuel argc argv tf s = Some (out, r) ->
  exists d, (d <= fuel)%nat /\
    stack_depth K (unwind_memory K s) (unwind_start s) d /\
    r = 0 /\ out = backtrace_output K s d.
Proof.
  unfold mon_backtrace. rewrite print_curr_trace_called.
  change (memory (call_return s (call_enter (ra_print_curr_trace K) s)))
    with (unwind_memory K s).
  change (wrap32 (ebp (call_return s (call_enter (ra_print_curr_trace K) s))))
    with (unwind_start s).
  destruct (backtrace_loop K fuel (unwind_memory K s) (unwind_start s))
    as [out2|] eqn:Hl; [|discriminate].
  intros H. inversion H. subst out r.
  destruct (backtrace_loop_inv _ _ _ _ _ Hl) as (d & Hd & Hs & ->).
  exists d. repeat split; try assumption. apply Hs. apply Hs.
Qed.

Lemma frame_records_output K s d :
  frame_records (backtrace_output K s d)
  = current_frame K s :: frames (unwind_memory K s) d (unwind_start s).
Proof.
  unfold backtrace_output.
  change (frame_records (?e :: ?l)) with (frame_records l).
  rewrite frame_records_app, frame_records_block, frame_records_blocks.
  reflexivity.
Qed.

(** The [k]-th record of a backtrace reports the [k]-th frame base of the
    chain. *)
Lemma output_frame_base K s d k :
  (k <= d)%nat ->
  frame_base <$> (frame_records (backtrace_output K s d) !! k)
  = Some (chain (unwind_memory K s) k (unwind_start s)).
Proof.
  intros Hk. rewrite frame_records_output.
  destruct k as [|k]; [reflexivity|].
  rewrite chain_S_r.
  change ((?x :: ?l) !! S k) with (l !! k).
  rewrite frames_lookup by lia. reflexivity.
Qed.

End BacktraceFacts.

(** ** The backtrace command *)

Section BacktraceClaims.

Import MachineFacts BacktraceFacts.

Context (K : kernel).

(** C1: over a call stack whose frame chain reaches the sentinel after
    exactly [D] steps, [mon_backtrace] returns and writes exactly [D+1]
    frame records; the record at position [k] reports the frame base [k]
    steps up the chain from the frame of [mon_backtrace], so the innermost
    frame comes first and the callers follow in order. *)
Theorem backtrace_emits_depth_plus_one
  (fuel : nat) (argc : Z) (argv : list string) (tf : Z) (s : cpu) (D : nat) :
  stack_depth K (unwind_memory K s) (unwind_start s) D ->
  (D <= fuel)%nat ->
  exists out,
    mon_backtrace K fuel argc argv tf s = Some (out, 0) /\
    length (frame_records out) = S D /\
    forall k, (k <= D)%nat ->
      frame_base <$> (frame_records out !! k)
      = Some (chain (unwind_memory K s) k (unwind_start s)).
Proof.
  intros Hs Hf. exists (backtrace_output K s D).
  split; [apply mon_backtrace_depth; assumption|].
  split.
  - rewrite frame_records_output. cbn [length]. rewrite frames_length.
    reflexivity.
  - intros k Hk. apply output_frame_base. exact Hk.
Qed.

(** C2: a pass of the loop at frame base [fb] writes the record made of
    the word at [fb], the word at [fb+4], and the five words at offsets 8,
    0xC, 0x10, 0x14 and 0x18 from the word read at [fb]; and in a backtrace
    that returned, every frame base the loop went through (the first [d]
    of the chain) has that record, in order, after the first record. *)
Theorem loop_record_is_frame_read
  (fuel : nat) (argc : Z) (argv : list string) (tf : Z) (s : cpu)
  (out : list event) (r : Z) :
  mon_backtrace K fuel argc argv tf s = Some (out, r) ->
  let m := unwind_memory K s in
  let record_at fb :=
    let caller := load32 m fb in
    {| frame_base := caller;
       return_address := load32 m (fb + 4);
       saved_args :=
         [ load32 m (caller + 8); load32 m (caller + 0xC);
           load32 m (caller + 0x10); load32 m (caller + 0x14);
           load32 m (caller + 0x18) ] |} in
  (forall fb,
     frame_records (fst (backtrace_pass K m fb)) = [record_at fb] /\
     snd (backtrace_pass K m fb) = load32 m fb) /\
  exists d,
    stack_depth K m (unwind_start s) d /\
    length (frame_records out) = S d /\
    forall k, (k < d)%nat ->
      let fb := chain m k (unwind_start s) in
      fb <> sentinel K /\
      frame_records out !! S k = Some (record_at fb).
Proof.
  intros H m record_at. split.
  - intros fb. split; [|reflexivity].
    apply (frame_records_block K (" " +:+ tab) (read_frame m fb)).
  - destruct (mon_backtrace_inv _ _ _ _ _ _ _ _ H)
      as (d & _ & Hs & _ & ->).
    exists d. split; [exact Hs|]. rewrite frame_records_output.
    split; [cbn [length]; rewrite frames_length; reflexivity|].
    intros k Hk fb. split; [apply Hs; exact Hk|].
    change ((?x :: ?l) !! S k) with (l !! k).
    rewrite frames_lookup by exact Hk. reflexivity.
Qed.

(** C3: the loop of [mon_backtrace] ends exactly at the sentinel
    [bootstacktop - 8]: when following the saved frame bases from the
    captured frame base reaches the sentinel within [n] steps,
    [mon_backtrace] returns, after as many passes [d] as it takes to reach
    the sentinel for the first time; fewer passes do not end it. *)
Theorem backtrace_stops_at_sentinel
  (argc : Z) (argv : list string) (tf : Z) (s : cpu) (n : nat) :
  let m := unwind_memory K s in
  chain m n (unwind_start s) = wrap32 (bootstacktop K - 8) ->
  exists d,
    (d <= n)%nat /\
    chain m d (unwind_start s) = wrap32 (bootstacktop K - 8) /\
    (forall k, (k < d)%nat ->
       chain m k (unwind_start s) <> wrap32 (bootstacktop K - 8)) /\
    forall fuel,
      ((d <= fuel)%nat ->
         exists out, mon_backtrace K fuel argc argv tf s = Some (out, 0) /\
                     length (frame_records out) = S d) /\
      ((fuel < d)%nat -> mon_backtrace K fuel argc argv tf s = None).
Proof.
  intros m H. destruct (reaches_depth K m n _ H) as (d & Hd & Hs).
  exists d. split; [exact Hd|]. split; [apply Hs|]. split; [apply Hs|].
  intros fuel. split.
  - intros Hf. exists (backtrace_output K s d).
    split; [apply mon_backtrace_depth; assumption|].
    rewrite frame_records_output. cbn [length]. rewrite frames_length.
    reflexivity.
  - intros Hf. apply (mon_backtrace_short K fuel argc argv tf s d); assumption.
Qed.

(** C4: the first record of a backtrace, written by [print_curr_trace]
    before the loop, reports the frame base of [mon_backtrace] itself (the
    value the loop later captures from the frame-base register), and its
    five argument words are the words at offsets 8 to 0x18 from that frame
    base, not from the frame base saved there. *)
Theorem first_record_reads_own_frame
  (fuel : nat) (argc : Z) (argv : list string) (tf : Z) (s : cpu)
  (out : list event) (r : Z) :
  mon_backtrace K fuel argc argv tf s = Some (out, r) ->
  let m := unwind_memory K s in
  let own := unwind_start s in
  let current := print_curr_trace K (call_enter (ra_print_curr_trace K) s) in
  (exists rest,
     out = Cprintf ("Stack backtrace:" +:+ nl) [] :: current ++ rest /\
     frame_records out = frame_records current ++ frame_records rest) /\
  frame_records current
  = [ {| frame_base := own;
         return_address := wrap32 (ra_print_curr_trace K);
         saved_args :=
           [ load32 m (own + 8); load32 m (own + 0xC);
             load32 m (own + 0x10); load32 m (own + 0x14);
             load32 m (own + 0x18) ] |} ].
Proof.
  intros H m own current.
  destruct (mon_backtrace_inv _ _ _ _ _ _ _ _ H) as (d & _ & _ & _ & ->).
  unfold current. rewrite print_curr_trace_called. split.
  - unfold backtrace_output. eexists. split; [reflexivity|].
    change (frame_records (Cprintf ?f [] :: ?l)) with (frame_records l).
    apply frame_records_app.
  - apply frame_records_block.
Qed.

(** C5: in a backtrace that returned, the frame base on each primary line
    after the first is the word read at the frame base on the line before
    it. *)
Theorem records_follow_the_chain
  (fuel : nat) (argc : Z) (argv : list string) (tf : Z) (s : cpu)
  (out : list event) (r : Z) (k : nat) (earlier later : FrameRecord) :
  mon_backtrace K fuel argc argv tf s = Some (out, r) ->
  frame_records out !! k = Some earlier ->
  frame_records out !! S k = Some later ->
  frame_base later = load32 (unwind_memory K s) (frame_base earlier).
Proof.
  intros H H1 H2.
  destruct (mon_backtrace_inv _ _ _ _ _ _ _ _ H) as (d & _ & _ & _ & ->).
  assert (Hk : (S k <= d)%nat).
  { apply lookup_lt_Some in H2. rewrite frame_records_output in H2.
    cbn [length] in H2. rewrite frames_length in H2. lia. }
  pose proof (output_frame_base K s d k ltac:(lia)) as B1.
  pose proof (output_frame_base K s d (S k) Hk) as B2.
  rewrite H1 in B1. rewrite H2 in B2.
  assert (E1 : frame_base earlier
               = chain (unwind_memory K s) k (unwind_start s))
    by exact (f_equal (default 0) B1).
  assert (E2 : frame_base later
               = chain (unwind_memory K s) (S k) (unwind_start s))
    by exact (f_equal (default 0) B2).
  rewrite E1, E2. apply chain_S_r.
Qed.

Lemma fmt_d_sub_wrap a b : fmt_d (wrap32 (a - wrap32 b)) = fmt_d (a - b).
Proof.
  unfold fmt_d, to_int. rewrite wrap32_idem, wrap32_sub_r. reflexivity.
Qed.

Lemma resolve_info_lines lead ret :
  info_lines K lead ret
  = match resolve K ret with
    | Some info =>
        [ Cprintf (lead +:+ fmt_info)
            [ AStr (eip_file info); AInt (eip_line info);
              AInt (eip_fn_namelen info); AStr (eip_fn_name info);
              AInt (wrap32 (ret - wrap32 (eip_fn_addr info))) ] ]
    | None => []
    end.
Proof.
  unfold info_lines, resolve. destruct (debuginfo_eip K ret) as [c info].
  destruct (c =? 0); reflexivity.
Qed.

Lemma frame_block_reports lead rec :
  lead = tab \/ lead = " " +:+ tab -> reports K rec (frame_block K lead rec).
Proof.
  intros Hlead. unfold reports, frame_block.
  exists (frame_line (frame_base rec) (return_address rec) (saved_args rec)).
  split; [rewrite frame_record_of_line; destruct rec; reflexivity|].
  rewrite resolve_info_lines.
  destruct (resolve K (return_address rec)) as [info|]; [|reflexivity].
  eexists lead, _. split; [reflexivity|]. split; [exact Hlead|].
  split; [reflexivity|].
  unfold annotation_text. rewrite <- fmt_d_sub_wrap.
  destruct Hlead as [-> | ->]; reflexivity.
Qed.

(** C6: a backtrace that returned is its heading followed by one block
    of lines per frame record; the block is the primary [ebp/eip/args] line
    alone when the resolver fails for the record's return address, and the
    primary line followed by one more line when it succeeds, whose text is
    the file name, the line number, the function name cut to its reported
    length and the return address minus the function's start address. *)
Theorem annotation_iff_resolved
  (fuel : nat) (argc : Z) (argv : list string) (tf : Z) (s : cpu)
  (out : list event) (r : Z) :
  mon_backtrace K fuel argc argv tf s = Some (out, r) ->
  exists blocks : list (list event),
    out = Cprintf ("Stack backtrace:" +:+ nl) [] :: concat blocks /\
    Forall2 (reports K) (frame_records out) blocks.
Proof.
  intros H.
  destruct (mon_backtrace_inv _ _ _ _ _ _ _ _ H) as (d & _ & _ & _ & ->).
  exists (frame_block K tab (current_frame K s)
          :: map (frame_block K (" " +:+ tab))
               (frames (unwind_memory K s) d (unwind_start s))).
  split; [reflexivity|]. rewrite frame_records_output.
  constructor.
  - apply frame_block_reports. left. reflexivity.
  - generalize (frames (unwind_memory K s) d (unwind_start s)).
    intros rs. induction rs as [|rec rs IH]; constructor; [|exact IH].
    apply frame_block_reports. right. reflexivity.
Qed.

End BacktraceClaims.

(** The example stack has depth 2 under the example kernel. *)
Lemma s0_depth :
  stack_depth K0 (unwind_memory K0 s0) (unwind_start s0) 2.
Proof.
  split; [vm_compute; reflexivity|].
  intros k Hk. destruct k as [|[|k]]; [vm_compute; discriminate ..|lia].
Defined.

Lemma backtrace_emits_depth_plus_one_witness :
  exists out,
    mon_backtrace K0 2 1 ["backtrace"%string] 0 s0 = Some (out, 0) /\
    length (frame_records out) = 3%nat /\
    forall k, (k <= 2)%nat ->
      frame_base <$> (frame_records out !! k)
      = Some (chain (unwind_memory K0 s0) k (unwind_start s0)).
Proof.
  apply (backtrace_emits_depth_plus_one K0 2 1 ["backtrace"%string] 0 s0 2).
  - exact s0_depth.
  - lia.
Defined.

Lemma s0_backtrace :
  mon_backtrace K0 2 1 ["backtrace"%string] 0 s0
  = Some (backtrace_output K0 s0 2, 0).
Proof. vm_compute. reflexivity. Defined.

Lemma loop_record_is_frame_read_witness :
  let m := unwind_memory K0 s0 in
  let record_at fb :=
    let caller := load32 m fb in
    {| frame_base := caller;
       return_address := load32 m (fb + 4);
       saved_args :=
         [ load32 m (caller + 8); load32 m (caller + 0xC);
           load32 m (caller + 0x10); load32 m (caller + 0x14);
           load32 m (caller + 0x18) ] |} in
  (forall fb,
     frame_records (fst (backtrace_pass K0 m fb)) = [record_at fb] /\
     snd (backtrace_pass K0 m fb) = load32 m fb) /\
  exists d,
    stack_depth K0 m (unwind_start s0) d /\
    length (frame_records (backtrace_output K0 s0 2)) = S d /\
    forall k, (k < d)%nat ->
      let fb := chain m k (unwind_start s0) in
      fb <> sentinel K0 /\
      frame_records (backtrace_output K0 s0 2) !! S k = Some (record_at fb).
Proof.
  apply (loop_record_is_frame_read K0 2 1 ["backtrace"%string] 0 s0
           (backtrace_output K0 s0 2) 0).
  exact s0_backtrace.
Defined.

Lemma backtrace_stops_at_sentinel_witness :
  exists d,
    (d <= 2)%nat /\
    chain (unwind_memory K0 s0) d (unwind_start s0)
    = wrap32 (bootstacktop K0 - 8) /\
    (forall k, (k < d)%nat ->
       chain (unwind_memory K0 s0) k (unwind_start s0)
       <> wrap32 (bootstacktop K0 - 8)) /\
    forall fuel,
      ((d <= fuel)%nat ->
         exists out,
           mon_backtrace K0 fuel 1 ["backtrace"%string] 0 s0 = Some (out, 0) /\
           length (frame_records out) = S d) /\
      ((fuel < d)%nat ->
         mon_backtrace K0 fuel 1 ["backtrace"%string] 0 s0 = None).
Proof.
  apply (backtrace_stops_at_sentinel K0 1 ["backtrace"%string] 0 s0 2).
  vm_compute. reflexivity.
Defined.

Lemma first_record_reads_own_frame_witness :
  let m := unwind_memory K0 s0 in
  let own := unwind_start s0 in
  let current :=
    print_curr_trace K0 (call_enter (ra_print_curr_trace K0) s0) in
  (exists rest,
     backtrace_output K0 s0 2
     = Cprintf ("Stack backtrace:" +:+ nl) [] :: current ++ rest /\
     frame_records (backtrace_output K0 s0 2)
     = frame_records current ++ frame_records rest) /\
  frame_records current
  = [ {| frame_base := own;
         return_address := wrap32 (ra_print_curr_trace K0);
         saved_args :=
           [ load32 m (own + 8); load32 m (own + 0xC);
             load32 m (own + 0x10); load32 m (own + 0x14);
             load32 m (own + 0x18) ] |} ].
Proof.
  apply (first_record_reads_own_frame K0 2 1 ["backtrace"%string] 0 s0
           (backtrace_output K0 s0 2) 0).
  exact s0_backtrace.
Defined.

Lemma records_follow_the_chain_witness :
  0xf010fff8 = load32 (unwind_memory K0 s0) 0xf010ffb8.
Proof.
  apply (records_follow_the_chain K0 2 1 ["backtrace"%string] 0 s0
           (backtrace_output K0 s0 2) 0 1
           {| frame_base := 0xf010ffb8; return_address := 0xf0100a00;
              saved_args := [9; 0; 0; 0; 0] |}
           {| frame_base := 0xf010fff8; return_address := 0xf0100b00;
              saved_args := [0; 0; 0; 0; 0] |}).
  - exact s0_backtrace.
  - vm_compute. reflexivity.
  - vm_compute. reflexivity.
Defined.

Lemma annotation_iff_resolved_witness :
  exists blocks : list (list event),
    backtrace_output K0 s0 2
    = Cprintf ("Stack backtrace:" +:+ nl) [] :: concat blocks /\
    Forall2 (reports K0) (frame_records (backtrace_output K0 s0 2)) blocks.
Proof.
  apply (annotation_iff_resolved K0 2 1 ["backtrace"%string] 0 s0
           (backtrace_output K0 s0 2) 0).
  exact s0_backtrace.
Defined.

(** ** The parsing loop of [runcmd] *)

Module ParseFacts.

Local Open Scope nat_scope.

Lemma is_space_cases c :
  is_space c = true ->
  c = "009"%char \/ c = "013"%char \/ c = "010"%char \/ c = " "%char.
Proof.
  unfold is_space, WHITESPACE. cbn [strchr].
  destruct (Ascii.eqb_spec "009" c); [auto|].
  destruct (Ascii.eqb_spec "013" c); [auto|].
  destruct (Ascii.eqb_spec "010" c); [auto|].
  destruct (Ascii.eqb_spec " " c); [auto|]. discriminate.
Qed.

Lemma is_space_not_nul c : is_space c = true -> Ascii.eqb c NUL = false.
Proof.
  intros H. destruct (is_space_cases c H) as [->|[->|[->| ->]]]; reflexivity.
Qed.

Lemma is_space_nul : is_space NUL = false.
Proof. reflexivity. Qed.

Lemma arg_char_nul : arg_char NUL = false.
Proof. reflexivity. Qed.

(** The three kinds of character the loops tell apart. *)
Lemma char_kind c :
  c = NUL \/ (c <> NUL /\ is_space c = true /\ arg_char c = false)
  \/ (c <> NUL /\ is_space c = false /\ arg_char c = true).
Proof.
  unfold arg_char. change (strchr WHITESPACE c) with (is_space c).
  destruct (Ascii.eqb_spec c NUL) as [->|Hne]; [left; reflexivity|right].
  destruct (is_space c); [left|right]; auto.
Qed.

Lemma arg_char_spec c :
  arg_char c = true <-> c <> NUL /\ is_space c = false.
Proof.
  unfold arg_char. change (strchr WHITESPACE c) with (is_space c).
  destruct (Ascii.eqb_spec c NUL) as [->|Hne]; cbn [negb andb].
  - split; [discriminate|]. intros [H _]. contradiction.
  - destruct (is_space c); cbn [negb]; split.
    + discriminate.
    + intros [_ H]. discriminate.
    + intros _. split; [exact Hne|reflexivity].
    + reflexivity.
Qed.

(** *** Reading the buffer by index *)

Lemma deref_ge (buf : list ascii) p :
  (length buf <= p)%nat -> deref buf p = NUL.
Proof.
  intros H. unfold deref. rewrite lookup_ge_None_2 by exact H. reflexivity.
Qed.

Lemma deref_lookup (buf : list ascii) p c :
  buf !! p = Some c -> deref buf p = c.
Proof. intros H. unfold deref. rewrite H. reflexivity. Qed.

Lemma deref_not_nul_lt (buf : list ascii) p :
  deref buf p <> NUL -> (p < length buf)%nat.
Proof.
  intros H.
  destruct (Nat.lt_ge_cases p (length buf)) as [Hlt|Hge]; [exact Hlt|].
  exfalso. apply H. apply deref_ge. exact Hge.
Qed.

Lemma lookup_deref (buf : list ascii) p :
  (p < length buf)%nat -> buf !! p = Some (deref buf p).
Proof.
  intros H. apply lookup_lt_is_Some in H. destruct H as [c Hc].
  rewrite (deref_lookup _ _ _ Hc). exact Hc.
Qed.

Lemma deref_insert_same (buf : list ascii) p c :
  (p < length buf)%nat -> deref (<[p := c]> buf) p = c.
Proof.
  intros H. apply deref_lookup. apply list_lookup_insert_eq. exact H.
Qed.

Lemma deref_insert_other (buf : list ascii) p i c :
  p <> i -> deref (<[p := c]> buf) i = deref buf i.
Proof.
  intros H. unfold deref. rewrite list_lookup_insert_ne by exact H. reflexivity.
Qed.

Lemma drop_deref (buf : list ascii) p :
  (p < length buf)%nat -> drop p buf = deref buf p :: drop (S p) buf.
Proof. intros H. apply drop_S. apply lookup_deref. exact H. Qed.

Lemma cstring_drop (buf : list ascii) p :
  cstring (drop p buf)
  = if Ascii.eqb (deref buf p) NUL then EmptyString
    else String (deref buf p) (cstring (drop (S p) buf)).
Proof.
  destruct (Nat.lt_ge_cases p (length buf)) as [Hlt|Hge].
  - rewrite (drop_deref _ _ Hlt). reflexivity.
  - rewrite drop_ge by exact Hge. rewrite deref_ge by exact Hge. reflexivity.
Qed.

Lemma take_word_drop (buf : list ascii) p :
  take_word (drop p buf)
  = if arg_char (deref buf p)
    then String (deref buf p) (take_word (drop (S p) buf))
    else EmptyString.
Proof.
  destruct (Nat.lt_ge_cases p (length buf)) as [Hlt|Hge].
  - rewrite (drop_deref _ _ Hlt). cbn [take_word]. unfold arg_char, is_space.
    destruct (Ascii.eqb (deref buf p) NUL); [reflexivity|].
    destruct (strchr WHITESPACE (deref buf p)); reflexivity.
  - rewrite drop_ge by exact Hge. rewrite deref_ge by exact Hge. reflexivity.
Qed.

Lemma words_drop (buf : list ascii) b p :
  words b (drop p buf)
  = if Ascii.eqb (deref buf p) NUL then []
    else if is_space (deref buf p) then words true (drop (S p) buf)
    else (if b then [take_word (drop p buf)] else [])
         ++ words false (drop (S p) buf).
Proof.
  destruct (Nat.lt_ge_cases p (length buf)) as [Hlt|Hge].
  - rewrite (drop_deref _ _ Hlt). cbn [words take_word].
    destruct (Ascii.eqb (deref buf p) NUL); [reflexivity|].
    destruct (is_space (deref buf p)); reflexivity.
  - rewrite drop_ge by exact Hge. rewrite deref_ge by exact Hge. reflexivity.
Qed.

(** *** The two inner loops *)

Lemma gobble_spec fuel : forall buf p buf1 p1,
  gobble fuel buf p = (buf1, p1) ->
  (length buf - p <= fuel)%nat ->
  length buf1 = length buf /\
  (p <= p1)%nat /\
  (forall i, (p <= i < p1)%nat ->
     is_space (deref buf i) = true /\ deref buf1 i = NUL) /\
  (forall i, ~ (p <= i < p1)%nat -> deref buf1 i = deref buf i) /\
  is_space (deref buf p1) = false.
Proof.
  induction fuel as [|fuel IH]; intros buf p buf1 p1 H Hf.
  - cbn in H. inversion H. subst buf1 p1.
    repeat split; try lia; try (intros; lia).
    rewrite deref_ge by lia. reflexivity.
  - cbn [gobble] in H. change (strchr WHITESPACE (deref buf p))
      with (is_space (deref buf p)) in H.
    destruct (char_kind (deref buf p)) as [Hc|[(Hn & Hs & _)|(Hn & Hs & _)]].
    + rewrite Hc in H. cbn in H. inversion H. subst buf1 p1.
      repeat split; try lia; try (intros; lia).
      rewrite Hc. reflexivity.
    + rewrite Hs in H. rewrite (is_space_not_nul _ Hs) in H.
      cbn [negb andb] in H.
      pose proof (deref_not_nul_lt _ _ Hn) as Hlt.
      apply IH in H; [|rewrite length_insert; lia].
      destruct H as (Hl & Hp & Hin & Hout & Hex).
      rewrite length_insert in Hl.
      split; [exact Hl|]. split; [lia|]. split; [|split].
      * intros i Hi. destruct (Nat.eq_dec i p) as [->|Hne].
        -- split; [exact Hs|]. rewrite Hout by lia.
           apply deref_insert_same. exact Hlt.
        -- destruct (Hin i ltac:(lia)) as [Hsi Hz].
           rewrite deref_insert_other in Hsi by lia. split; assumption.
      * intros i Hi. rewrite Hout by lia. apply deref_insert_other. lia.
      * rewrite deref_insert_other in Hex by lia. exact Hex.
    + rewrite Hs in H. rewrite andb_false_r in H. inversion H. subst buf1 p1.
      repeat split; try lia; try (intros; lia). exact Hs.
Qed.

Lemma scan_arg_spec fuel : forall buf p,
  (length buf - p <= fuel)%nat ->
  (p <= scan_arg fuel buf p)%nat /\
  (forall i, (p <= i < scan_arg fuel buf p)%nat ->
     arg_char (deref buf i) = true) /\
  arg_char (deref buf (scan_arg fuel buf p)) = false.
Proof.
  induction fuel as [|fuel IH]; intros buf p Hf.
  - cbn. repeat split; try lia; try (intros; lia).
    rewrite deref_ge by lia. reflexivity.
  - cbn [scan_arg]. fold (arg_char (deref buf p)).
    destruct (arg_char (deref buf p)) eqn:Hc.
    + assert (Hlt : (p < length buf)%nat).
      { apply deref_not_nul_lt. apply arg_char_spec in Hc. tauto. }
      destruct (IH buf (S p) ltac:(lia)) as (Hp & Hin & Hex).
      split; [lia|]. split; [|exact Hex].
      intros i Hi. destruct (Nat.eq_dec i p) as [->|Hne]; [exact Hc|].
      apply Hin. lia.
    + repeat split; try lia; try (intros; lia). exact Hc.
Qed.

(** *** Tokens of the line along the loops *)

Lemma words_skip_spaces (buf : list ascii) n : forall p,
  (forall i, (p <= i < p + n)%nat -> is_space (deref buf i) = true) ->
  words true (drop p buf) = words true (drop (p + n) buf).
Proof.
  induction n as [|n IH]; intros p H.
  - rewrite Nat.add_0_r. reflexivity.
  - rewrite words_drop. pose proof (H p ltac:(lia)) as Hs.
    rewrite (is_space_not_nul _ Hs), Hs.
    rewrite (IH (S p)) by (intros; apply H; lia).
    f_equal. f_equal. lia.
Qed.

Lemma words_inside_arg (buf : list ascii) n : forall p,
  (forall i, (p <= i < p + n)%nat -> arg_char (deref buf i) = true) ->
  words false (drop p buf) = words false (drop (p + n) buf).
Proof.
  induction n as [|n IH]; intros p H.
  - rewrite Nat.add_0_r. reflexivity.
  - rewrite words_drop. pose proof (H p ltac:(lia)) as Hc.
    apply arg_char_spec in Hc. destruct Hc as [Hn Hs].
    apply Ascii.eqb_neq in Hn. rewrite Hn, Hs.
    rewrite (IH (S p)) by (intros; apply H; lia).
    cbn [app]. f_equal. f_equal. lia.
Qed.

Lemma words_after_arg (buf : list ascii) p :
  arg_char (deref buf p) = false ->
  words false (drop p buf) = words true (drop p buf).
Proof.
  intros H. rewrite (words_drop buf false p), (words_drop buf true p).
  destruct (char_kind (deref buf p)) as [Hc|[(Hn & Hs & _)|(_ & _ & Ha)]].
  - rewrite Hc. reflexivity.
  - rewrite Hs. reflexivity.
  - congruence.
Qed.

Lemma words_first_arg (buf : list ascii) p :
  arg_char (deref buf p) = true ->
  words true (drop p buf)
  = take_word (drop p buf) :: words false (drop (S p) buf).
Proof.
  intros H. rewrite words_drop. apply arg_char_spec in H.
  destruct H as [Hn Hs]. apply Ascii.eqb_neq in Hn. rewrite Hn, Hs.
  reflexivity.
Qed.

(** The string at a saved pointer is the argument of the original line
    once the character after the argument has become the terminator. *)
Lemma str_at_arg (buf0 buf : list ascii) n : forall q,
  (forall i, (q <= i < q + n)%nat ->
     arg_char (deref buf0 i) = true /\ deref buf i = deref buf0 i) ->
  arg_char (deref buf0 (q + n)) = false ->
  deref buf (q + n) = NUL ->
  str_at buf q = take_word (drop q buf0).
Proof.
  unfold str_at. induction n as [|n IH]; intros q Hin He Hz.
  - rewrite Nat.add_0_r in He, Hz.
    rewrite cstring_drop, take_word_drop, He, Hz. reflexivity.
  - rewrite cstring_drop, take_word_drop.
    destruct (Hin q ltac:(lia)) as [Hc Hsame]. rewrite Hc, Hsame.
    apply arg_char_spec in Hc. destruct Hc as [Hn _].
    apply Ascii.eqb_neq in Hn. rewrite Hn. f_equal.
    apply IH.
    + intros i Hi. apply Hin. lia.
    + replace (S q + n)%nat with (q + S n)%nat by lia. exact He.
    + replace (S q + n)%nat with (q + S n)%nat by lia. exact Hz.
Qed.

(** *** The parsing loop *)

Lemma parse_inv_init buf0 : parse_inv buf0 buf0 0 [].
Proof.
  split.
  - reflexivity.
  - intros i _. reflexivity.
  - intros i Hi. lia.
  - reflexivity.
  - constructor.
  - left. reflexivity.
Qed.

Lemma parse_inv_gobble buf0 buf p argv buf1 p1 :
  parse_inv buf0 buf p argv ->
  gobble (length buf) buf p = (buf1, p1) ->
  parse_inv buf0 buf1 p1 argv /\ is_space (deref buf0 p1) = false.
Proof.
  intros [Hlen Hah Hbe Htok Hargv Hbd] Hg.
  apply gobble_spec in Hg; [|lia].
  destruct Hg as (Hl & Hp & Hin & Hout & Hex).
  assert (Hsp : forall i, (p <= i < p1)%nat -> is_space (deref buf0 i) = true).
  { intros i Hi. rewrite <- Hah by lia. apply Hin. exact Hi. }
  split; [split|].
  - congruence.
  - intros i Hi. rewrite Hout by lia. apply Hah. lia.
  - intros i Hi. destruct (Nat.lt_ge_cases i p) as [Hlt|Hge].
    + rewrite Hout by lia. apply Hbe. exact Hlt.
    + pose proof (Hsp i ltac:(lia)) as Hs. rewrite Hs. split.
      * apply Ascii.eqb_neq. apply is_space_not_nul. exact Hs.
      * apply Hin. lia.
  - rewrite Htok. f_equal.
    replace p1 with (p + (p1 - p))%nat by lia.
    apply words_skip_spaces. intros i Hi. apply Hsp. lia.
  - eapply Forall_impl; [exact Hargv|]. cbn. intros q (e & He & Hr).
    exists e. split; [lia|exact Hr].
  - destruct (Nat.eq_dec p1 p) as [->|Hne]; [exact Hbd|].
    right. right. apply Hsp. lia.
  - rewrite <- Hah by lia. exact Hex.
Qed.

Lemma parse_inv_arg buf0 buf p argv :
  parse_inv buf0 buf p argv ->
  arg_char (deref buf0 p) = true ->
  parse_inv buf0 buf (scan_arg (length buf) buf p) (argv ++ [p]).
Proof.
  intros [Hlen Hah Hbe Htok Hargv Hbd] Hc.
  destruct (scan_arg_spec (length buf) buf p ltac:(lia)) as (Hp & Hin & Hex).
  set (p2 := scan_arg (length buf) buf p) in *.
  assert (Hrun : forall i, (p <= i < p2)%nat -> arg_char (deref buf0 i) = true).
  { intros i Hi. rewrite <- Hah by lia. apply Hin. exact Hi. }
  assert (Hend : arg_char (deref buf0 p2) = false).
  { rewrite <- Hah by lia. exact Hex. }
  assert (Hlt : (p < p2)%nat).
  { destruct (Nat.eq_dec p p2) as [He|Hne]; [|lia]. rewrite <- He in Hend.
    congruence. }
  split.
  - exact Hlen.
  - intros i Hi. apply Hah. lia.
  - intros i Hi. destruct (Nat.lt_ge_cases i p) as [Hl|Hge].
    + apply Hbe. exact Hl.
    + pose proof (Hrun i ltac:(lia)) as Hci. apply arg_char_spec in Hci.
      destruct Hci as [Hn Hs]. rewrite Hs. split; [exact Hn|]. apply Hah. lia.
  - rewrite Htok, map_app, <- app_assoc. f_equal. cbn [map app].
    rewrite words_first_arg by exact Hc. f_equal.
    rewrite <- words_after_arg by exact Hend.
    replace p2 with (S p + (p2 - S p))%nat by lia.
    apply words_inside_arg. intros i Hi. apply Hrun. lia.
  - apply Forall_app. split.
    + eapply Forall_impl; [exact Hargv|]. cbn. intros q (e & He & Hr).
      exists e. split; [lia|exact Hr].
    + constructor; [|constructor]. exists p2. split; [lia|].
      split; [exact Hlt|]. split; [exact Hrun|]. split; [exact Hend|].
      destruct Hbd as [Hb|[Hb|Hb]]; [left; exact Hb|congruence|right; exact Hb].
  - right. left. exact Hend.
Qed.

Lemma parse_loop_spec buf0 fuel : forall buf p argv,
  parse_inv buf0 buf p argv ->
  (length argv + fuel = MAXARGS)%nat ->
  (length argv <= MAXARGS - 1)%nat ->
  exists t, parse_loop fuel buf p argv = Some t /\ parse_final buf0 t.
Proof.
  unfold MAXARGS.
  induction fuel as [|fuel IH]; intros buf p argv Hinv Hf Hn; [lia|].
  cbn [parse_loop].
  destruct (gobble (length buf) buf p) as [buf1 p1] eqn:Hg.
  destruct (parse_inv_gobble _ _ _ _ _ _ Hinv Hg) as [Hinv1 Hs].
  pose proof (inv_ahead _ _ _ _ Hinv1 p1 ltac:(lia)) as Hsame.
  destruct (Ascii.eqb_spec (deref buf1 p1) NUL) as [Hz|Hnz].
  - eexists. split; [reflexivity|]. unfold parse_final, MAXARGS. cbn.
    split; [exact Hinv1|]. split; [exact Hn|]. congruence.
  - assert (Hc : arg_char (deref buf0 p1) = true).
    { apply arg_char_spec. split; [congruence|exact Hs]. }
    unfold MAXARGS. cbn [Nat.sub].
    destruct (Nat.eqb_spec (length argv) 15) as [He|Hne].
    + eexists. split; [reflexivity|]. unfold parse_final, MAXARGS. cbn.
      split; [exact Hinv1|]. split; [exact Hn|]. split; assumption.
    + apply IH.
      * apply parse_inv_arg; assumption.
      * rewrite length_app. cbn. lia.
      * rewrite length_app. cbn in *. lia.
Qed.

(** The parsing loop of [runcmd] always leaves. *)
Lemma runcmd_parse_final buf :
  exists t, runcmd_parse buf = Some t /\ parse_final buf t.
Proof.
  apply parse_loop_spec.
  - apply parse_inv_init.
  - reflexivity.
  - cbn. lia.
Qed.

(** It leaves through "Too many arguments" exactly on lines of more than
    [MAXARGS - 1] tokens. *)
Lemma parse_final_too_many buf t :
  parse_final buf t ->
  p_too_many t = true <-> (MAXARGS - 1 < length (spec_tokens buf))%nat.
Proof.
  intros (Hinv & Hn & Hex). rewrite (inv_tokens _ _ _ _ Hinv).
  rewrite length_app, length_map. unfold MAXARGS in *.
  destruct (p_too_many t).
  - destruct Hex as [Hl Hc]. rewrite words_first_arg by exact Hc.
    cbn [length]. split; [lia|reflexivity].
  - rewrite words_drop, Hex. cbn. split; [discriminate|lia].
Qed.

(** Every saved pointer is at an argument of the line, and the string
    there is that argument. *)
Lemma parse_final_arg buf t q :
  parse_final buf t -> q ∈ p_argv t ->
  (q < p_pos t)%nat /\
  arg_char (deref buf q) = true /\
  (q = 0%nat \/ is_space (deref buf (q - 1)) = true) /\
  str_at (p_buf t) q = take_word (drop q buf).
Proof.
  intros (Hinv & Hn & Hex) Hq.
  pose proof (inv_argv _ _ _ _ Hinv) as Hargv.
  rewrite Forall_forall in Hargv.
  destruct (Hargv q Hq) as (e & He & Hlt & Hrun & Hend & Hbd).
  split; [lia|]. split; [apply Hrun; lia|]. split; [exact Hbd|].
  replace e with (q + (e - q))%nat in Hend, He by lia.
  apply (str_at_arg buf (p_buf t) (e - q)).
  - intros i Hi. pose proof (Hrun i ltac:(lia)) as Hc. split; [exact Hc|].
    destruct (inv_behind _ _ _ _ Hinv i ltac:(lia)) as [_ Hb].
    apply arg_char_spec in Hc. destruct Hc as [_ Hs]. rewrite Hs in Hb.
    exact Hb.
  - exact Hend.
  - destruct (Nat.eq_dec (q + (e - q)) (p_pos t)) as [Heq|Hne].
    + rewrite Heq in *. destruct (p_too_many t).
      * destruct Hex as [_ Hc]. congruence.
      * rewrite (inv_ahead _ _ _ _ Hinv) by lia. exact Hex.
    + destruct (inv_behind _ _ _ _ Hinv (q + (e - q))%nat ltac:(lia))
        as [Hnz Hb].
      destruct (char_kind (deref buf (q + (e - q))))
        as [Hc|[(_ & Hs & _)|(_ & _ & Ha)]]; [contradiction| |congruence].
      rewrite Hs in Hb. exact Hb.
Qed.

(** On a line that is not rejected the strings at the saved pointers are
    the tokens of the line. *)
Lemma parse_final_tokens buf t :
  parse_final buf t -> p_too_many t = false ->
  map (str_at (p_buf t)) (p_argv t) = spec_tokens buf.
Proof.
  intros Hfin Hm. pose proof Hfin as (Hinv & Hn & Hex). rewrite Hm in Hex.
  rewrite (inv_tokens _ _ _ _ Hinv), words_drop, Hex. cbn.
  rewrite app_nil_r. apply map_ext_in. intros q Hq.
  apply (parse_final_arg buf t q Hfin). apply list_elem_of_In. exact Hq.
Qed.

End ParseFacts.

(** ** The dispatcher *)

Module DispatchFacts.

Import BacktraceFacts ParseFacts.

(** [runcmd] in terms of the tokens of the line. *)
Lemma runcmd_with_too_many call buf tf hs :
  (MAXARGS - 1 < length (spec_tokens buf))%nat ->
  runcmd_with call buf tf hs = Some ([too_many_line], 0).
Proof.
  intros H. destruct (runcmd_parse_final buf) as (t & Ht & Hfin).
  apply (parse_final_too_many buf t Hfin) in H.
  unfold runcmd_with. rewrite Ht, H. reflexivity.
Qed.

Lemma runcmd_with_tokens call buf tf hs :
  (length (spec_tokens buf) <= MAXARGS - 1)%nat ->
  runcmd_with call buf tf hs
  = match spec_tokens buf with
    | [] => Some ([], 0)
    | arg0 :: _ =>
        match lookup_command commands arg0 with
        | Some c =>
            match call (func c) (Z.of_nat (length (spec_tokens buf)))
                    (spec_tokens buf) tf hs with
            | Some (out, r) =>
                Some (Invoke (func c) (Z.of_nat (length (spec_tokens buf)))
                        (spec_tokens buf) tf :: out, r)
            | None => None
            end
        | None => Some ([unknown_line arg0], 0)
        end
    end.
Proof.
  intros H. destruct (runcmd_parse_final buf) as (t & Ht & Hfin).
  assert (Hm : p_too_many t = false).
  { destruct (p_too_many t) eqn:E; [|reflexivity].
    apply (parse_final_too_many buf t Hfin) in E. lia. }
  unfold runcmd_with. rewrite Ht, Hm.
  rewrite <- (length_map (str_at (p_buf t)) (p_argv t)).
  rewrite (parse_final_tokens buf t Hfin Hm). reflexivity.
Qed.

(** A negative return value of [runcmd] is the return value of the handler
    it called. *)
Lemma runcmd_with_negative call buf tf hs out r :
  runcmd_with call buf tf hs = Some (out, r) -> r < 0 ->
  exists f argc argv o,
    call f argc argv tf hs = Some (o, r) /\ out = Invoke f argc argv tf :: o.
Proof.
  intros H Hr.
  destruct (Nat.lt_ge_cases (MAXARGS - 1) (length (spec_tokens buf)))
    as [Hmany|Hfew].
  - rewrite runcmd_with_too_many in H by exact Hmany. inversion H. lia.
  - rewrite runcmd_with_tokens in H by exact Hfew.
    destruct (spec_tokens buf) as [|arg0 rest]; [inversion H; lia|].
    destruct (lookup_command commands arg0) as [c|]; [|inversion H; lia].
    destruct (call (func c) _ _ tf hs) as [[o r']|] eqn:Hc; [|discriminate].
    inversion H. subst r'. eexists _, _, _, o. split; [exact Hc|reflexivity].
Qed.

Lemma call_func_returns_0 K fuel f argc argv tf hs o r :
  call_func K fuel f argc argv tf hs = Some (o, r) -> r = 0.
Proof.
  destruct f; cbn [call_func].
  - unfold mon_help. intros H. inversion H. reflexivity.
  - unfold mon_kerninfo. intros H. inversion H. reflexivity.
  - intros H.
    destruct (mon_backtrace_inv _ _ _ _ _ _ _ _ H) as (d & _ & _ & Hr & _).
    exact Hr.
Qed.

Lemma runcmd_returns_0 K fuel buf tf hs out r :
  runcmd K fuel buf tf hs = Some (out, r) -> r = 0.
Proof.
  intros H. destruct (Z.lt_trichotomy r 0) as [Hneg|[H0|Hpos]]; [|exact H0|].
  - destruct (runcmd_with_negative _ _ _ _ _ _ H Hneg)
      as (f & a & v & o & Hc & _).
    apply call_func_returns_0 in Hc. exact Hc.
  - unfold runcmd in H.
    destruct (Nat.lt_ge_cases (MAXARGS - 1) (length (spec_tokens buf)))
      as [Hmany|Hfew].
    + rewrite runcmd_with_too_many in H by exact Hmany. inversion H.
      reflexivity.
    + rewrite runcmd_with_tokens in H by exact Hfew.
      destruct (spec_tokens buf) as [|arg0 rest]; [inversion H; reflexivity|].
      destruct (lookup_command commands arg0) as [c|];
        [|inversion H; reflexivity].
      destruct (call_func K fuel (func c) _ _ tf hs) as [[o r']|] eqn:Hc;
        [|discriminate].
      inversion H. subst. apply call_func_returns_0 in Hc. exact Hc.
Qed.

(** One pass of the loop of [monitor] over a line that [runcmd] answers
    with a value that is not negative. *)
Lemma monitor_loop_continue call tf buf hs rest out r :
  runcmd_with call buf tf hs = Some (out, r) -> 0 <= r ->
  monitor_loop call tf ((Some buf, hs) :: rest)
  = match monitor_loop call tf rest with
    | Some (out', st) => Some (out ++ out', st)
    | None => None
    end.
Proof.
  intros H Hr. cbn [monitor_loop]. rewrite H.
  destruct (Z.ltb_spec r 0); [lia|reflexivity].
Qed.

Lemma monitor_loop_exit call tf lines : forall out,
  monitor_loop call tf lines = Some (out, Exit) ->
  exists f argc argv hs o r,
    hs ∈ lines.*2 /\
    call f argc argv tf hs = Some (o, r) /\ r < 0 /\
    Invoke f argc argv tf ∈ out.
Proof.
  induction lines as [|[[buf|] hs] rest IH]; intros out H.
  - discriminate.
  - cbn [monitor_loop] in H.
    destruct (runcmd_with call buf tf hs) as [[o r]|] eqn:Hrun; [|discriminate].
    destruct (Z.ltb_spec r 0) as [Hneg|Hpos].
    + inversion H. subst o.
      destruct (runcmd_with_negative _ _ _ _ _ _ Hrun Hneg)
        as (f & a & v & o & Hc & ->).
      exists f, a, v, hs, o, r. repeat split; try assumption.
      * cbn. apply list_elem_of_here.
      * apply list_elem_of_here.
    + destruct (monitor_loop call tf rest) as [[o' st]|] eqn:Hrest;
        [|discriminate].
      inversion H. subst.
      destruct (IH _ eq_refl)
        as (f & a & v & hs' & o2 & r2 & Hin & Hc & Hr & Hi).
      exists f, a, v, hs', o2, r2. repeat split; try assumption.
      * cbn. apply list_elem_of_further. exact Hin.
      * apply elem_of_app. right. exact Hi.
  - cbn [monitor_loop] in H.
    destruct (IH _ H) as (f & a & v & hs' & o2 & r2 & Hin & Hc & Hr & Hi).
    exists f, a, v, hs', o2, r2. repeat split; try assumption.
    cbn. apply list_elem_of_further. exact Hin.
Qed.

Lemma monitor_loop_reading K fuel tf lines : forall out st,
  monitor_loop (call_func K fuel) tf lines = Some (out, st) -> st = Reading.
Proof.
  intros out st H. destruct st; [reflexivity|].
  destruct (monitor_loop_exit _ _ _ _ H)
    as (f & a & v & hs & o & r & _ & Hc & Hr & _).
  apply call_func_returns_0 in Hc. lia.
Qed.

End DispatchFacts.

(** ** Tokenizer and dispatcher *)

Section DispatchClaims.

Import BacktraceFacts ParseFacts DispatchFacts.

Context (K : kernel).

(** C7: on every line of more than [MAXARGS - 1] (15) tokens, so on
    every line of 16 tokens, [runcmd] writes the "Too many arguments"
    notice and nothing else, calls no handler, and returns 0, a value that
    is not negative; a monitor that reads such a line is back at reading. *)
Theorem too_many_arguments_rejected
  (fuel : nat) (buf : list ascii) (tf : Z) (hs : cpu) :
  (MAXARGS - 1 < length (spec_tokens buf))%nat ->
  exists out r,
    runcmd K fuel buf tf hs = Some (out, r) /\
    out = [Cprintf ("Too many arguments (max %d)" +:+ nl) [AInt 16]] /\
    map console_text out = ["Too many arguments (max 16)" +:+ nl] /\
    existsb is_invoke out = false /\
    0 <= r /\
    monitor K fuel tf [(Some buf, hs)] = Some (welcome ++ out, Reading).
Proof.
  intros H. exists [too_many_line], 0.
  pose proof (runcmd_with_too_many (call_func K fuel) buf tf hs H) as Hrun.
  split; [exact Hrun|]. split; [reflexivity|]. split; [reflexivity|].
  split; [reflexivity|]. split; [lia|].
  unfold monitor, monitor_with.
  rewrite (monitor_loop_continue _ _ _ _ _ _ _ Hrun) by lia. reflexivity.
Qed.

(** C8, as amended: on every line of at most [MAXARGS - 1] (15) tokens
    whose first token is no command name, the lookup finds no command,
    [runcmd] writes exactly [Unknown command '<name>'] with the first token
    for the name, calls no handler, and returns 0; a monitor that reads such
    a line is back at reading. *)
Theorem unknown_command_reported
  (fuel : nat) (buf : list ascii) (tf : Z) (hs : cpu)
  (arg0 : string) (rest : list string) :
  spec_tokens buf = arg0 :: rest ->
  (length (arg0 :: rest) <= MAXARGS - 1)%nat ->
  lookup_command commands arg0 = None ->
  exists out r,
    runcmd K fuel buf tf hs = Some (out, r) /\
    out = [Cprintf ("Unknown command '%s'" +:+ nl) [AStr arg0]] /\
    map console_text out = ["Unknown command '" +:+ arg0 +:+ "'" +:+ nl] /\
    existsb is_invoke out = false /\
    0 <= r /\
    monitor K fuel tf [(Some buf, hs)] = Some (welcome ++ out, Reading).
Proof.
  intros Htok Hlen Hlook. exists [unknown_line arg0], 0.
  assert (Hrun : runcmd K fuel buf tf hs = Some ([unknown_line arg0], 0)).
  { unfold runcmd. rewrite runcmd_with_tokens by (rewrite Htok; exact Hlen).
    rewrite Htok, Hlook. reflexivity. }
  split; [exact Hrun|]. split; [reflexivity|]. split; [reflexivity|].
  split; [reflexivity|]. split; [lia|].
  unfold monitor, monitor_with.
  rewrite (monitor_loop_continue _ _ _ _ _ _ _ Hrun) by lia. reflexivity.
Qed.

(** C9: the loop of [monitor] is left only after a handler that was
    called returned a negative value; a null line goes round the loop
    again; the handlers of this file return 0 whenever they return; so the
    monitor over these handlers, whatever it reads, is never in its exit
    state. *)
Theorem monitor_exits_only_on_negative_signal
  (fuel : nat) (call : handler_call) (tf : Z)
  (lines : list (option (list ascii) * cpu))
  (out out' : list event) (st st' : mon_state) :
  monitor_with call tf lines = Some (out, st) ->
  monitor K fuel tf lines = Some (out', st') ->
  (st = Exit ->
     exists f argc argv hs o r,
       hs ∈ lines.*2 /\
       call f argc argv tf hs = Some (o, r) /\ r < 0 /\
       Invoke f argc argv tf ∈ out) /\
  (forall hs rest,
     monitor_loop call tf ((None, hs) :: rest) = monitor_loop call tf rest) /\
  (forall f argc argv hs o r,
     call_func K fuel f argc argv tf hs = Some (o, r) -> r = 0) /\
  st' = Reading.
Proof.
  intros H H'. split; [|split; [|split]].
  - intros ->. unfold monitor_with in H.
    destruct (monitor_loop call tf lines) as [[o st1]|] eqn:Hl; [|discriminate].
    inversion H. subst st1.
    destruct (monitor_loop_exit _ _ _ _ Hl)
      as (f & a & v & hs & o2 & r & Hin & Hc & Hr & Hi).
    exists f, a, v, hs, o2, r. repeat split; try assumption.
    subst out. do 2 apply list_elem_of_further. exact Hi.
  - reflexivity.
  - intros f argc argv hs o r Hc. apply call_func_returns_0 in Hc. exact Hc.
  - unfold monitor, monitor_with in H'.
    destruct (monitor_loop (call_func K fuel) tf lines) as [[o st2]|] eqn:Hl;
      [|discriminate].
    inversion H'. subst st'. apply (monitor_loop_reading _ _ _ _ _ _ Hl).
Qed.

End DispatchClaims.

Lemma too_many_arguments_rejected_witness :
  exists out r,
    runcmd K0 0 line16 0 s0 = Some (out, r) /\
    out = [Cprintf ("Too many arguments (max %d)" +:+ nl) [AInt 16]] /\
    map console_text out = ["Too many arguments (max 16)" +:+ nl] /\
    existsb is_invoke out = false /\
    0 <= r /\
    monitor K0 0 0 [(Some line16, s0)] = Some (welcome ++ out, Reading).
Proof.
  apply (too_many_arguments_rejected K0 0 line16 0 s0).
  vm_compute. lia.
Defined.

(** C8 as stated fails on a line of 16 tokens: the first token
    [unknown] is no command name, and [runcmd] writes "Too many arguments"
    where the claim has [Unknown command 'unknown']. *)
Lemma unknown_command_counterexample :
  ~ (forall (buf : list ascii) (arg0 : string),
       head (spec_tokens buf) = Some arg0 ->
       lookup_command commands arg0 = None ->
       runcmd K0 0 buf 0 s0
       = Some ([Cprintf ("Unknown command '%s'" +:+ nl) [AStr arg0]], 0)).
Proof.
  intros H. specialize (H line16 "unknown"%string eq_refl eq_refl).
  vm_compute in H. discriminate H.
Qed.

Lemma unknown_command_reported_witness :
  exists out r,
    runcmd K0 0 line_unknown 0 s0 = Some (out, r) /\
    out = [Cprintf ("Unknown command '%s'" +:+ nl) [AStr "unknown"]] /\
    map console_text out = ["Unknown command 'unknown'" +:+ nl] /\
    existsb is_invoke out = false /\
    0 <= r /\
    monitor K0 0 0 [(Some line_unknown, s0)] = Some (welcome ++ out, Reading).
Proof.
  apply (unknown_command_reported K0 0 line_unknown 0 s0
           "unknown"%string ["x"%string]).
  - vm_compute. reflexivity.
  - vm_compute. lia.
  - vm_compute. reflexivity.
Defined.

Lemma monitor_exits_only_on_negative_signal_witness :
  (exists f argc argv hs o r,
     hs ∈ lines_exit.*2 /\
     call_exit f argc argv 0 hs = Some (o, r) /\ r < 0 /\
     Invoke f argc argv 0 ∈ out_exit) /\
  (forall hs rest,
     monitor_loop call_exit 0 ((None, hs) :: rest)
     = monitor_loop call_exit 0 rest) /\
  (forall f argc argv hs o r,
     call_func K0 2 f argc argv 0 hs = Some (o, r) -> r = 0) /\
  Reading = Reading.
Proof.
  destruct (monitor_exits_only_on_negative_signal K0 2 call_exit 0 lines_exit
              out_exit out_builtin Exit Reading) as (H1 & H2 & H3 & H4).
  - vm_compute. reflexivity.
  - vm_compute. reflexivity.
  - split; [apply H1; reflexivity|]. split; [exact H2|]. split; [exact H3|].
    exact H4.
Defined.

(** ** Stacks that lie above the stack pointer *)

Module StackFacts.

Import MachineFacts BacktraceFacts.

(** Calling [print_curr_trace] writes below the stack pointer only: words
    at or above it read as before. *)
Lemma unwind_memory_above K s a :
  8 <= esp s -> esp s <= a -> a + 4 <= 2 ^ 32 ->
  load32 (unwind_memory K s) a = load32 (memory s) a.
Proof.
  intros Hsp Ha Htop. unfold unwind_memory, call_return, call_enter.
  cbn [memory].
  assert (H1 : wrap32 (esp s - 4) = esp s - 4) by (apply wrap32_small; lia).
  rewrite H1.
  assert (H2 : wrap32 (esp s - 4 - 4) = esp s - 8) by
    (replace (esp s - 4 - 4) with (esp s - 8) by lia; apply wrap32_small; lia).
  rewrite H2.
  rewrite !load32_store32_other; [reflexivity| |].
  - intros i j Hi Hj. rewrite !wrap32_small by lia. lia.
  - intros i j Hi Hj. rewrite !wrap32_small by lia. lia.
Qed.

(** A frame chain that stays in the stack at or above the stack pointer
    is the same chain for the loop of [mon_backtrace]. *)
Lemma chain_unwind_memory K s n : forall fb,
  8 <= esp s ->
  (forall k, (k < n)%nat ->
     esp s <= chain (memory s) k fb /\ chain (memory s) k fb + 4 <= 2 ^ 32) ->
  chain (unwind_memory K s) n fb = chain (memory s) n fb.
Proof.
  induction n as [|n IH]; intros fb Hsp Hlive; [reflexivity|].
  cbn [chain]. unfold chain_step.
  destruct (Hlive 0%nat ltac:(lia)) as [Hlo Hhi]. cbn [chain] in Hlo, Hhi.
  rewrite unwind_memory_above by assumption.
  apply IH; [exact Hsp|]. intros k Hk. apply (Hlive (S k)). lia.
Qed.

Lemma stack_depth_unwind_memory K s fb d :
  8 <= esp s ->
  (forall k, (k < d)%nat ->
     esp s <= chain (memory s) k fb /\ chain (memory s) k fb + 4 <= 2 ^ 32) ->
  stack_depth K (memory s) fb d ->
  stack_depth K (unwind_memory K s) fb d.
Proof.
  intros Hsp Hlive [Hd Hl]. split.
  - rewrite chain_unwind_memory by assumption. exact Hd.
  - intros k Hk. rewrite chain_unwind_memory; [apply Hl; exact Hk|exact Hsp|].
    intros j Hj. apply Hlive. lia.
Qed.

(** The backtrace of a call stack of depth [D], stated on the memory in
    which [mon_backtrace] is entered. *)
Lemma backtrace_of_live_stack K fuel argc argv tf s D :
  8 <= esp s ->
  (forall k, (k < D)%nat ->
     esp s <= chain (memory s) k (unwind_start s) /\
     chain (memory s) k (unwind_start s) + 4 <= 2 ^ 32) ->
  stack_depth K (memory s) (unwind_start s) D ->
  (D <= fuel)%nat ->
  exists out,
    mon_backtrace K fuel argc argv tf s = Some (out, 0) /\
    map frame_base (frame_records out)
    = map (fun k => chain (memory s) k (unwind_start s)) (seq 0 (S D)).
Proof.
  intros Hsp Hlive Hs Hf. exists (backtrace_output K s D).
  split.
  - apply mon_backtrace_depth; [|exact Hf].
    apply stack_depth_unwind_memory; assumption.
  - apply list_eq. intros k. rewrite !list_lookup_fmap.
    destruct (Nat.le_gt_cases k D) as [Hk|Hk].
    + rewrite output_frame_base by exact Hk.
      rewrite lookup_seq_lt by lia.
      rewrite chain_unwind_memory; [reflexivity|exact Hsp|].
      intros j Hj. apply Hlive. lia.
    + rewrite lookup_seq_ge by lia.
      rewrite lookup_ge_None_2; [reflexivity|].
      rewrite frame_records_output. cbn [length]. rewrite frames_length. lia.
Qed.

(** A chain that never reaches the sentinel keeps the loop going. *)
Lemma backtrace_loop_never K m fuel : forall fb,
  (forall n, chain m n fb <> sentinel K) ->
  backtrace_loop K fuel m fb = None.
Proof.
  induction fuel as [|fuel IH]; intros fb H.
  - apply backtrace_loop_out_of_fuel. exact (H 0%nat).
  - rewrite backtrace_loop_step by exact (H 0%nat).
    rewrite IH; [reflexivity|]. intros n. exact (H (S n)).
Qed.

End StackFacts.

(** ** Worked examples *)

Module Checks.

Import BacktraceFacts StackFacts.

(** What the example backtrace puts on the console. *)
Example backtrace_text :
  map console_text (backtrace_output K0 s0 2)
  = [ "Stack backtrace:" +:+ nl;
      "  ebp f010ff78 eip f0100850 args 00000007 00000000 00000000 00000000 00000000" +:+ nl;
      tab +:+ "kern/monitor.c:98: mon_backtrace+80" +:+ nl;
      "  ebp f010ffb8 eip f0100a00 args 00000009 00000000 00000000 00000000 00000000" +:+ nl;
      "  ebp f010fff8 eip f0100b00 args 00000000 00000000 00000000 00000000 00000000" +:+ nl ].
Proof. vm_compute. reflexivity. Qed.

(** The first record of the example takes its argument words from the
    frame of [mon_backtrace], which holds 7 at offset 8, and not from the
    frame saved there, which holds 9 at offset 8. *)
Example first_record_args :
  saved_args <$> (frame_records (backtrace_output K0 s0 2) !! 0%nat)
  = Some [7; 0; 0; 0; 0] /\
  read_args (unwind_memory K0 s0)
    (chain_step (unwind_memory K0 s0) (unwind_start s0))
  = [9; 0; 0; 0; 0].
Proof. vm_compute. split; reflexivity. Qed.

(** On a cyclic frame chain [mon_backtrace] does not return. *)
Example cyclic_chain_never_returns (fuel : nat) :
  mon_backtrace K0 fuel 1 ["backtrace"%string] 0 s_cyclic = None.
Proof.
  unfold mon_backtrace.
  rewrite backtrace_loop_never; [reflexivity|].
  assert (H : forall n,
    chain (unwind_memory K0 s_cyclic) n 0xf010ff78 <> sentinel K0 /\
    chain (unwind_memory K0 s_cyclic) n 0xf010ffb8 <> sentinel K0).
  { induction n as [|n [IH1 IH2]].
    - split; vm_compute; discriminate.
    - split; cbn [chain].
      + replace (chain_step (unwind_memory K0 s_cyclic) 0xf010ff78)
          with 0xf010ffb8 by (vm_compute; reflexivity).
        exact IH2.
      + replace (chain_step (unwind_memory K0 s_cyclic) 0xf010ffb8)
          with 0xf010ff78 by (vm_compute; reflexivity).
        exact IH1. }
  intros n. apply (H n).
Qed.

(** The line ["  backtrace   \n"] holds exactly one token, and
    [runcmd] finds it at index 2. *)
Example backtrace_line_tokens :
  spec_tokens line_backtrace = ["backtrace"%string] /\
  p_argv <$> runcmd_parse line_backtrace = Some [2%nat] /\
  (fun t => map (str_at (p_buf t)) (p_argv t)) <$> runcmd_parse line_backtrace
  = Some ["backtrace"%string].
Proof. vm_compute. repeat split. Qed.

(** A line of 17 tokens leaves the parsing loop at its 16th token, with
    the whitespace after it untouched. *)
Example line17_stops_at_token_16 :
  (fun t => (p_too_many t, p_pos t, deref (p_buf t) 31))
    <$> runcmd_parse line17
  = Some (true, 30%nat, " "%char).
Proof. vm_compute. reflexivity. Qed.

End Checks.

(** ** Tokens of a line *)

Module TokenFacts.

Import ParseFacts DispatchFacts.

Local Open Scope nat_scope.

Lemma take_word_stale l junk :
  take_word (l ++ NUL :: junk) = take_word (l ++ [NUL]).
Proof.
  induction l as [|c l IH]; [reflexivity|].
  cbn [app take_word]. rewrite IH. reflexivity.
Qed.

Lemma words_stale l junk : forall b,
  words b (l ++ NUL :: junk) = words b (l ++ [NUL]).
Proof.
  induction l as [|c l IH]; intros b; [reflexivity|].
  cbn [app words]. rewrite !IH, take_word_stale. reflexivity.
Qed.

Lemma words_blank ws rest : forall b,
  Forall (fun c => is_space c = true) ws ->
  words b (ws ++ NUL :: rest) = [].
Proof.
  induction ws as [|c ws IH]; intros b H; [reflexivity|].
  inversion H as [|? ? Hc Hws]. subst.
  cbn [app words]. rewrite (is_space_not_nul _ Hc), Hc. apply IH. exact Hws.
Qed.

Lemma take_word_chars l : forall c,
  In c (list_ascii_of_string (take_word l)) -> arg_char c = true.
Proof.
  induction l as [|d l IH]; intros c H; [destruct H|].
  cbn [take_word] in H.
  destruct (char_kind d) as [->|[(Hn & Hs & _)|(Hn & Hs & Ha)]].
  - destruct H.
  - rewrite Hs, orb_true_r in H. destruct H.
  - apply Ascii.eqb_neq in Hn. rewrite Hn, Hs in H. cbn in H.
    destruct H as [<-|H]; [exact Ha|apply IH; exact H].
Qed.

Lemma take_word_run (buf0 : list ascii) n : forall q,
  (forall i, q <= i < q + n -> arg_char (deref buf0 i) = true) ->
  arg_char (deref buf0 (q + n)) = false ->
  String.length (take_word (drop q buf0)) = n.
Proof.
  induction n as [|n IH]; intros q Hin He.
  - rewrite Nat.add_0_r in He. rewrite take_word_drop, He. reflexivity.
  - rewrite take_word_drop, (Hin q) by lia. cbn [String.length]. f_equal.
    apply IH.
    + intros i Hi. apply Hin. lia.
    + replace (S q + n) with (q + S n) by lia. exact He.
Qed.

Lemma arg_run_length buf0 q e :
  arg_run buf0 q e -> q + String.length (take_word (drop q buf0)) = e.
Proof.
  intros (Hlt & Hrun & Hend & _).
  rewrite (take_word_run buf0 (e - q)); [lia| |].
  - intros i Hi. apply Hrun. lia.
  - replace (q + (e - q)) with e by lia. exact Hend.
Qed.

Lemma runcmd_parse_is_final buf t :
  runcmd_parse buf = Some t -> parse_final buf t.
Proof.
  intros H. destruct (runcmd_parse_final buf) as (t' & Ht & Hfin).
  congruence.
Qed.

(** The strings at the saved pointers are the first tokens of the line,
    as many as fit. *)
Lemma parse_final_first_tokens buf t :
  parse_final buf t ->
  map (str_at (p_buf t)) (p_argv t) = take (MAXARGS - 1) (spec_tokens buf).
Proof.
  intros Hfin. pose proof Hfin as (Hinv & Hn & Hex).
  assert (Hmap : map (str_at (p_buf t)) (p_argv t)
                 = map (fun q => take_word (drop q buf)) (p_argv t)).
  { apply map_ext_in. intros q Hq.
    apply (parse_final_arg buf t q Hfin). apply list_elem_of_In. exact Hq. }
  rewrite Hmap, (inv_tokens _ _ _ _ Hinv).
  destruct (p_too_many t).
  - destruct Hex as [Hl _]. rewrite take_app_length'; [reflexivity|].
    rewrite length_map. symmetry. exact Hl.
  - rewrite words_drop, Hex. cbn. rewrite app_nil_r.
    rewrite take_ge; [reflexivity|]. rewrite length_map. exact Hn.
Qed.

(** [runcmd] is the dispatch on the tokens of the line. *)
Lemma runcmd_with_dispatch call buf tf hs :
  runcmd_with call buf tf hs = dispatch call (spec_tokens buf) tf hs.
Proof.
  unfold dispatch.
  destruct (Nat.ltb_spec (MAXARGS - 1) (length (spec_tokens buf)))
    as [Hmany|Hfew].
  - apply runcmd_with_too_many. exact Hmany.
  - rewrite runcmd_with_tokens by exact Hfew. reflexivity.
Qed.

(** The loop never goes past the end of the buffer. *)
Lemma parse_final_pos_le buf t :
  parse_final buf t -> p_pos t <= length buf.
Proof.
  intros (Hinv & _ & _).
  destruct (Nat.le_gt_cases (p_pos t) (length buf)) as [H|H]; [exact H|].
  destruct (inv_behind _ _ _ _ Hinv (length buf) H) as [Hn _].
  exfalso. apply Hn. apply deref_ge. lia.
Qed.

Lemma parse_final_before_nul buf t n :
  parse_final buf t -> buf !! n = Some NUL -> p_pos t <= n.
Proof.
  intros (Hinv & _ & _) Hz.
  destruct (Nat.le_gt_cases (p_pos t) n) as [H|H]; [exact H|].
  destruct (inv_behind _ _ _ _ Hinv n H) as [Hn _].
  exfalso. apply Hn. apply deref_lookup. exact Hz.
Qed.

Lemma parse_final_ahead buf t i :
  parse_final buf t -> p_pos t <= i -> p_buf t !! i = buf !! i.
Proof.
  intros (Hinv & _ & _) Hi.
  pose proof (inv_length _ _ _ _ Hinv) as Hlen.
  destruct (Nat.lt_ge_cases i (length buf)) as [Hlt|Hge].
  - rewrite (lookup_deref buf i Hlt).
    rewrite (lookup_deref (p_buf t) i) by lia.
    rewrite (inv_ahead _ _ _ _ Hinv i Hi). reflexivity.
  - rewrite !lookup_ge_None_2 by lia. reflexivity.
Qed.

End TokenFacts.

(** ** Order of the saved pointers *)

Module OrderFacts.

Import ParseFacts TokenFacts.

Local Open Scope nat_scope.

Lemma StronglySorted_snoc {A} (R : A -> A -> Prop) l y :
  StronglySorted R l -> Forall (fun x => R x y) l ->
  StronglySorted R (l ++ [y]).
Proof.
  induction l as [|x l IH]; intros Hs Hall.
  - constructor; constructor.
  - inversion Hs as [|? ? Hl Hx]. inversion Hall as [|? ? Hxy Hly]. subst.
    cbn [app]. constructor; [apply IH; assumption|].
    apply Forall_app. split; [exact Hx|]. constructor; [exact Hxy|constructor].
Qed.

Lemma parse_loop_order buf0 fuel : forall buf p argv t,
  parse_inv buf0 buf p argv ->
  StronglySorted (arg_before buf0) argv ->
  parse_loop fuel buf p argv = Some t ->
  StronglySorted (arg_before buf0) (p_argv t).
Proof.
  induction fuel as [|fuel IH]; intros buf p argv t Hinv Hsort H;
    [discriminate|].
  cbn [parse_loop] in H.
  destruct (gobble (length buf) buf p) as [buf1 p1] eqn:Hg.
  destruct (parse_inv_gobble _ _ _ _ _ _ Hinv Hg) as [Hinv1 Hs].
  pose proof (inv_ahead _ _ _ _ Hinv1 p1 ltac:(lia)) as Hsame.
  destruct (Ascii.eqb_spec (deref buf1 p1) NUL) as [Hz|Hnz].
  - inversion H. exact Hsort.
  - destruct (Nat.eqb (length argv) (MAXARGS - 1)).
    + inversion H. exact Hsort.
    + assert (Hc : arg_char (deref buf0 p1) = true).
      { apply arg_char_spec. split; [congruence|exact Hs]. }
      apply (IH _ _ _ _ (parse_inv_arg _ _ _ _ Hinv1 Hc)); [|exact H].
      apply StronglySorted_snoc; [exact Hsort|].
      eapply Forall_impl; [exact (inv_argv _ _ _ _ Hinv1)|].
      cbn. intros q (e & He & Hr). exists e. split; [exact Hr|].
      destruct (Nat.eq_dec e p1) as [->|Hne]; [|lia].
      destruct Hr as (_ & _ & Hend & _). congruence.
Qed.

Lemma runcmd_parse_order buf t :
  runcmd_parse buf = Some t -> StronglySorted (arg_before buf) (p_argv t).
Proof.
  intros H. apply (parse_loop_order buf MAXARGS buf 0 [] t).
  - apply parse_inv_init.
  - constructor.
  - exact H.
Qed.

Lemma StronglySorted_lookup {A} (R : A -> A -> Prop) l : forall i j x y,
  StronglySorted R l -> i < j -> l !! i = Some x -> l !! j = Some y ->
  R x y.
Proof.
  induction l as [|a l IH]; intros i j x y Hs Hij Hi Hj; [discriminate|].
  inversion Hs as [|? ? Hl Ha]. subst.
  destruct j as [|j]; [lia|]. cbn in Hj.
  destruct i as [|i].
  - cbn in Hi. inversion Hi. subst a.
    rewrite Forall_forall in Ha. apply Ha.
    apply (list_elem_of_lookup_2 _ _ _ Hj).
  - cbn in Hi. apply (IH i j); [exact Hl|lia|exact Hi|exact Hj].
Qed.

End OrderFacts.

(** ** Traces of the handlers, lookup, and the loop of the monitor *)

Module TraceFacts.

Import BacktraceFacts ParseFacts DispatchFacts TokenFacts.

Lemma no_invoke_info K lead ret :
  existsb is_invoke (info_lines K lead ret) = false.
Proof.
  unfold info_lines. destruct (debuginfo_eip K ret) as [c info].
  destruct (c =? 0); reflexivity.
Qed.

Lemma no_invoke_block K lead r :
  existsb is_invoke (frame_block K lead r) = false.
Proof. unfold frame_block. cbn [existsb is_invoke frame_line orb]. apply no_invoke_info. Qed.

Lemma no_invoke_blocks K lead rs :
  existsb is_invoke (concat (map (frame_block K lead) rs)) = false.
Proof.
  induction rs as [|r rs IH]; [reflexivity|].
  cbn [map concat]. rewrite existsb_app, no_invoke_block, IH. reflexivity.
Qed.

Lemma no_invoke_output K s d :
  existsb is_invoke (backtrace_output K s d) = false.
Proof.
  unfold backtrace_output. cbn [existsb is_invoke orb].
  rewrite existsb_app, no_invoke_block, no_invoke_blocks. reflexivity.
Qed.

(** The handlers of this file write text and call no handler. *)
Lemma call_func_no_invoke K fuel f argc argv tf hs o r :
  call_func K fuel f argc argv tf hs = Some (o, r) ->
  existsb is_invoke o = false.
Proof.
  destruct f; cbn [call_func]; intros H.
  - inversion H. reflexivity.
  - inversion H. reflexivity.
  - destruct (mon_backtrace_inv _ _ _ _ _ _ _ _ H) as (d & _ & _ & _ & ->).
    apply no_invoke_output.
Qed.

(** No entry of the command table is hidden behind an earlier one. *)
Lemma lookup_command_registered c :
  c ∈ commands -> lookup_command commands (name c) = Some c.
Proof.
  unfold commands. intros H.
  repeat (apply elem_of_cons in H; destruct H as [->|H]; [reflexivity|]).
  apply elem_of_nil in H. destruct H.
Qed.

Lemma lookup_command_sound cmds arg0 c :
  lookup_command cmds arg0 = Some c -> c ∈ cmds /\ name c = arg0.
Proof.
  induction cmds as [|d cmds IH]; [discriminate|]. cbn [lookup_command].
  destruct (String.eqb_spec arg0 (name d)) as [He|Hne].
  - intros H. inversion H. subst. split; [apply list_elem_of_here|reflexivity].
  - intros H. destruct (IH H) as [Hin Hn].
    split; [apply list_elem_of_further; exact Hin|exact Hn].
Qed.

(** The loop of [monitor] over one batch of lines after another. *)
Lemma monitor_loop_app call tf l1 : forall l2,
  monitor_loop call tf (l1 ++ l2)
  = match monitor_loop call tf l1 with
    | Some (o1, Reading) =>
        match monitor_loop call tf l2 with
        | Some (o2, st) => Some (o1 ++ o2, st)
        | None => None
        end
    | Some (o1, Exit) => Some (o1, Exit)
    | None => None
    end.
Proof.
  induction l1 as [|[[buf|] hs] l1 IH]; intros l2.
  - cbn [app monitor_loop]. destruct (monitor_loop call tf l2) as [[o2 st]|];
      reflexivity.
  - cbn [app monitor_loop].
    destruct (runcmd_with call buf tf hs) as [[o r]|]; [|reflexivity].
    destruct (r <? 0); [reflexivity|]. rewrite IH.
    destruct (monitor_loop call tf l1) as [[o1 [|]]|]; [|reflexivity..].
    destruct (monitor_loop call tf l2) as [[o2 st]|]; [|reflexivity].
    rewrite app_assoc. reflexivity.
  - cbn [app monitor_loop]. apply IH.
Qed.

End TraceFacts.

(** ** The stack as it is when [mon_backtrace] is entered *)

Module EntryFacts.

Import MachineFacts BacktraceFacts StackFacts.

Lemma read_args_above K s a :
  8 <= esp s -> esp s <= a -> a + 28 <= 2 ^ 32 ->
  read_args (unwind_memory K s) a = read_args (memory s) a.
Proof.
  intros Hsp Ha Htop. unfold read_args.
  rewrite !unwind_memory_above by lia. reflexivity.
Qed.

Lemma frames_above K s d : forall fb,
  8 <= esp s ->
  (forall k, (k <= d)%nat ->
     esp s <= chain (memory s) k fb /\ chain (memory s) k fb + 28 <= 2 ^ 32) ->
  frames (unwind_memory K s) d fb = frames (memory s) d fb.
Proof.
  induction d as [|d IH]; intros fb Hsp Hlive; [reflexivity|].
  cbn [frames].
  destruct (Hlive 0%nat ltac:(lia)) as [Hlo Hhi]. cbn [chain] in Hlo, Hhi.
  destruct (Hlive 1%nat ltac:(lia)) as [Hlo1 Hhi1].
  cbn [chain] in Hlo1, Hhi1. unfold chain_step in Hlo1, Hhi1.
  assert (Hstep : chain_step (unwind_memory K s) fb = chain_step (memory s) fb).
  { unfold chain_step. apply unwind_memory_above; lia. }
  rewrite Hstep. f_equal.
  - unfold read_frame.
    rewrite !unwind_memory_above by lia.
    rewrite read_args_above by lia. reflexivity.
  - apply IH; [exact Hsp|]. intros k Hk. apply (Hlive (S k)). lia.
Qed.

End EntryFacts.

(** ** Further properties of the command interpreter *)

Section InterpreterProperties.

Import BacktraceFacts ParseFacts DispatchFacts TokenFacts OrderFacts TraceFacts.

(** X1: [runcmd] does with a line what the dispatch on its
    whitespace-separated tokens does: the in-place parsing, the lookup and
    the call together depend on the line through its tokens only. *)
Theorem runcmd_dispatches_on_tokens
  (call : handler_call) (buf : list ascii) (tf : Z) (hs : cpu) :
  runcmd_with call buf tf hs = dispatch call (spec_tokens buf) tf hs.
Proof. apply runcmd_with_dispatch. Qed.

(** X2: a line that holds only whitespace before its terminator is
    ignored: [runcmd] saves no pointer, writes nothing, calls no handler
    and returns 0. *)
Theorem blank_line_ignored
  (K : kernel) (fuel : nat) (ws rest : list ascii) (tf : Z) (hs : cpu) :
  Forall (fun c => is_space c = true) ws ->
  runcmd K fuel (ws ++ NUL :: rest) tf hs = Some ([], 0) /\
  p_argv <$> runcmd_parse (ws ++ NUL :: rest) = Some [].
Proof.
  intros Hws.
  assert (Htok : spec_tokens (ws ++ NUL :: rest) = [])
    by (apply words_blank; exact Hws).
  split.
  - unfold runcmd. rewrite runcmd_with_dispatch, Htok. reflexivity.
  - destruct (runcmd_parse_final (ws ++ NUL :: rest)) as (t & Ht & Hfin).
    rewrite Ht. cbn. f_equal.
    pose proof (parse_final_first_tokens _ _ Hfin) as Hm.
    rewrite Htok in Hm. cbn in Hm.
    destruct (p_argv t); [reflexivity|discriminate].
Qed.

(** X3: [runcmd] answers with the "Too many arguments" notice exactly
    on the lines of more than [MAXARGS - 1] tokens, whatever the handlers
    are. *)
Theorem too_many_notice_iff
  (call : handler_call) (buf : list ascii) (tf : Z) (hs : cpu) :
  runcmd_with call buf tf hs = Some ([too_many_line], 0)
  <-> (MAXARGS - 1 < length (spec_tokens buf))%nat.
Proof.
  split; [|apply runcmd_with_too_many].
  intros H.
  destruct (Nat.lt_ge_cases (MAXARGS - 1) (length (spec_tokens buf)))
    as [Hmany|Hfew]; [exact Hmany|exfalso].
  rewrite runcmd_with_tokens in H by exact Hfew.
  destruct (spec_tokens buf) as [|arg0 rest]; [discriminate|].
  destruct (lookup_command commands arg0) as [c|].
  - destruct (call (func c) _ _ tf hs) as [[o r]|]; discriminate.
  - unfold unknown_line, too_many_line in H. discriminate.
Qed.

(** X4: the parsing loop of [runcmd] saves fewer than [MAXARGS]
    pointers, so the closing store to [argv[argc]] is inside the array,
    and the strings at the saved pointers are the first [MAXARGS - 1]
    tokens of the line, in order. *)
Theorem argv_holds_first_tokens (buf : list ascii) :
  exists t,
    runcmd_parse buf = Some t /\
    (length (p_argv t) < MAXARGS)%nat /\
    map (str_at (p_buf t)) (p_argv t) = take (MAXARGS - 1) (spec_tokens buf).
Proof.
  destruct (runcmd_parse_final buf) as (t & Ht & Hfin).
  exists t. split; [exact Ht|]. split.
  - destruct Hfin as (_ & Hn & _). unfold MAXARGS in *. lia.
  - apply parse_final_first_tokens. exact Hfin.
Qed.

(** X5: the parsing loop of [runcmd] never moves past the end of the
    buffer nor past a NUL in it, and leaves that NUL and everything after
    it as it was. *)
Theorem parse_stops_at_terminator
  (buf : list ascii) (t : parsed) (n : nat) :
  runcmd_parse buf = Some t ->
  buf !! n = Some NUL ->
  (p_pos t <= n)%nat /\
  (p_pos t <= length buf)%nat /\
  forall i, (n <= i)%nat -> p_buf t !! i = buf !! i.
Proof.
  intros Ht Hz. apply runcmd_parse_is_final in Ht.
  pose proof (parse_final_before_nul _ _ _ Ht Hz) as Hp.
  split; [exact Hp|]. split; [apply parse_final_pos_le; exact Ht|].
  intros i Hi. apply parse_final_ahead; [exact Ht|lia].
Qed.

(** X6: the string at every saved pointer is not empty and holds no
    whitespace and no NUL. *)
Theorem saved_strings_are_arguments
  (buf : list ascii) (t : parsed) (q : nat) :
  runcmd_parse buf = Some t ->
  q ∈ p_argv t ->
  str_at (p_buf t) q <> EmptyString /\
  forall c, In c (list_ascii_of_string (str_at (p_buf t) q)) ->
    c <> NUL /\ is_space c = false.
Proof.
  intros Ht Hq. apply runcmd_parse_is_final in Ht.
  destruct (parse_final_arg buf t q Ht Hq) as (_ & Hc & _ & ->).
  split.
  - rewrite take_word_drop, Hc. discriminate.
  - intros c Hin. apply arg_char_spec. apply (take_word_chars _ _ Hin).
Qed.

(** X7: what the buffer holds after the terminator of the line does not
    matter to [runcmd]. *)
Theorem text_after_terminator_ignored
  (call : handler_call) (line junk : list ascii) (tf : Z) (hs : cpu) :
  runcmd_with call (line ++ NUL :: junk) tf hs
  = runcmd_with call (line ++ [NUL]) tf hs.
Proof.
  rewrite !runcmd_with_dispatch. unfold spec_tokens.
  rewrite words_stale. reflexivity.
Qed.

(** X8: every command of the table is reached by its name: on a line of
    at most [MAXARGS - 1] tokens whose first token is the name of a
    registered command, [runcmd] calls the handler of that command, once,
    with the number of tokens and the tokens, and returns what the handler
    returns. *)
Theorem registered_command_invoked
  (call : handler_call) (buf : list ascii) (tf : Z) (hs : cpu)
  (c : Command) (rest : list string) :
  c ∈ commands ->
  spec_tokens buf = name c :: rest ->
  (length (name c :: rest) <= MAXARGS - 1)%nat ->
  runcmd_with call buf tf hs
  = match call (func c) (Z.of_nat (S (length rest))) (name c :: rest) tf hs
    with
    | Some (out, r) =>
        Some (Invoke (func c) (Z.of_nat (S (length rest))) (name c :: rest) tf
              :: out, r)
    | None => None
    end.
Proof.
  intros Hc Htok Hlen.
  rewrite runcmd_with_tokens by (rewrite Htok; exact Hlen).
  rewrite Htok, (lookup_command_registered c Hc). reflexivity.
Qed.

(** X9: [help], with any arguments, writes one line per command of the
    table, [<name> - <description>], in the order of the table, and
    returns 0. *)
Theorem help_lists_commands
  (K : kernel) (fuel : nat) (buf : list ascii) (tf : Z) (hs : cpu)
  (rest : list string) :
  spec_tokens buf = "help"%string :: rest ->
  (length ("help"%string :: rest) <= MAXARGS - 1)%nat ->
  exists out,
    runcmd K fuel buf tf hs
    = Some (Invoke mon_help_fn (Z.of_nat (S (length rest)))
              ("help"%string :: rest) tf :: out, 0) /\
    map console_text out = map help_text commands /\
    length out = NCOMMANDS.
Proof.
  intros Htok Hlen. eexists. split; [|split].
  - unfold runcmd. rewrite runcmd_with_tokens by (rewrite Htok; exact Hlen).
    rewrite Htok. reflexivity.
  - reflexivity.
  - reflexivity.
Qed.

(** X10: [runcmd] calls at most one handler for a line, before anything
    is written, and the handlers of this file call none. *)
Theorem at_most_one_handler_per_line
  (K : kernel) (fuel : nat) (buf : list ascii) (tf : Z) (hs : cpu)
  (out : list event) (r : Z) :
  runcmd K fuel buf tf hs = Some (out, r) ->
  existsb is_invoke (tail out) = false.
Proof.
  unfold runcmd. rewrite runcmd_with_dispatch. unfold dispatch.
  destruct (MAXARGS - 1 <? length (spec_tokens buf))%nat.
  - intros H. inversion H. reflexivity.
  - destruct (spec_tokens buf) as [|arg0 rest] eqn:Htok.
    + intros H. inversion H. reflexivity.
    + destruct (lookup_command commands arg0) as [c|].
      * destruct (call_func K fuel (func c) _ _ tf hs) as [[o r']|] eqn:Hc;
          [|discriminate].
        intros H. inversion H. cbn [tail].
        apply (call_func_no_invoke _ _ _ _ _ _ _ _ _ Hc).
      * intros H. inversion H. reflexivity.
Qed.

(** X11: the loop of [monitor] over one batch of lines and then another
    is the loop over the first and, while it is still reading, the loop
    over the second, with the output of both; once a handler has made it
    exit, no later line is run. *)
Theorem monitor_loop_over_batches
  (call : handler_call) (tf : Z)
  (l1 l2 : list (option (list ascii) * cpu)) :
  monitor_loop call tf (l1 ++ l2)
  = match monitor_loop call tf l1 with
    | Some (o1, Reading) =>
        match monitor_loop call tf l2 with
        | Some (o2, st) => Some (o1 ++ o2, st)
        | None => None
        end
    | Some (o1, Exit) => Some (o1, Exit)
    | None => None
    end.
Proof. apply monitor_loop_app. Qed.

(** X12: the saved pointers increase along [argv], and the string at
    each ends before the next pointer: the arguments do not overlap. *)
Theorem saved_pointers_increase
  (buf : list ascii) (t : parsed) (i j qi qj : nat) :
  runcmd_parse buf = Some t ->
  (i < j)%nat ->
  p_argv t !! i = Some qi ->
  p_argv t !! j = Some qj ->
  (qi + String.length (str_at (p_buf t) qi) < qj)%nat.
Proof.
  intros Ht Hij Hi Hj.
  pose proof (runcmd_parse_order _ _ Ht) as Hs.
  destruct (StronglySorted_lookup _ _ _ _ _ _ Hs Hij Hi Hj) as (e & Hr & He).
  apply runcmd_parse_is_final in Ht.
  destruct (parse_final_arg buf t qi Ht (list_elem_of_lookup_2 _ _ _ Hi))
    as (_ & _ & _ & ->).
  rewrite (arg_run_length _ _ _ Hr). exact He.
Qed.

End InterpreterProperties.

(** ** Further properties of the backtrace *)

Section BacktraceProperties.

Import MachineFacts BacktraceFacts StackFacts EntryFacts.

Context (K : kernel).

(** X13: on a frame chain that never reaches the sentinel, for one
    that is cyclic or runs off the stack, the loop of [mon_backtrace] has
    no end: [mon_backtrace] does not return, however many passes it is
    given. *)
Theorem corrupted_chain_never_returns
  (argc : Z) (argv : list string) (tf : Z) (s : cpu) :
  (forall n, chain (unwind_memory K s) n (unwind_start s) <> sentinel K) ->
  forall fuel, mon_backtrace K fuel argc argv tf s = None.
Proof.
  intros H fuel. unfold mon_backtrace.
  change (memory (call_return s (call_enter (ra_print_curr_trace K) s)))
    with (unwind_memory K s).
  change (wrap32 (ebp (call_return s (call_enter (ra_print_curr_trace K) s))))
    with (unwind_start s).
  rewrite backtrace_loop_never by exact H. reflexivity.
Qed.

(** X14: in a backtrace that returned, the frame base of a record is
    the sentinel [bootstacktop - 8] exactly when the record is the last
    one. *)
Theorem sentinel_only_in_last_record
  (fuel : nat) (argc : Z) (argv : list string) (tf : Z) (s : cpu)
  (out : list event) (r : Z) (k : nat) (rec : FrameRecord) :
  mon_backtrace K fuel argc argv tf s = Some (out, r) ->
  frame_records out !! k = Some rec ->
  frame_base rec = wrap32 (bootstacktop K - 8)
  <-> S k = length (frame_records out).
Proof.
  intros H Hk.
  destruct (mon_backtrace_inv _ _ _ _ _ _ _ _ H) as (d & _ & Hs & _ & ->).
  assert (Hlen : length (frame_records (backtrace_output K s d)) = S d).
  { rewrite frame_records_output. cbn [length]. rewrite frames_length.
    reflexivity. }
  pose proof (lookup_lt_Some _ _ _ Hk) as Hlt. rewrite Hlen in *.
  pose proof (output_frame_base K s d k ltac:(lia)) as Hb.
  rewrite Hk in Hb.
  assert (Hfb : frame_base rec
                = chain (unwind_memory K s) k (unwind_start s))
    by exact (f_equal (default 0) Hb).
  rewrite Hfb. fold (sentinel K). destruct Hs as [Hd Hl]. split.
  - intros He. destruct (Nat.eq_dec k d) as [->|Hne]; [reflexivity|].
    exfalso. apply (Hl k); [lia|exact He].
  - intros He. replace k with d by lia. exact Hd.
Qed.

(** X15: when the frames of the chain and their argument words lie at
    or above the stack pointer, the call of [print_curr_trace] disturbs
    none of them: the backtrace reports the stack as it is in memory when
    [mon_backtrace] is entered, the frame of [mon_backtrace] first and then
    the frames read along the chain. *)
Theorem backtrace_reports_entry_stack
  (fuel : nat) (argc : Z) (argv : list string) (tf : Z) (s : cpu) (D : nat) :
  8 <= esp s ->
  (forall k, (k <= D)%nat ->
     esp s <= chain (memory s) k (unwind_start s) /\
     chain (memory s) k (unwind_start s) + 28 <= 2 ^ 32) ->
  stack_depth K (memory s) (unwind_start s) D ->
  (D <= fuel)%nat ->
  exists out,
    mon_backtrace K fuel argc argv tf s = Some (out, 0) /\
    frame_records out
    = {| frame_base := unwind_start s;
         return_address := wrap32 (ra_print_curr_trace K);
         saved_args := read_args (memory s) (unwind_start s) |}
      :: frames (memory s) D (unwind_start s).
Proof.
  intros Hsp Hlive Hs Hf. exists (backtrace_output K s D). split.
  - apply mon_backtrace_depth; [|exact Hf].
    apply stack_depth_unwind_memory; [exact Hsp| |exact Hs].
    intros k Hk. destruct (Hlive k ltac:(lia)). lia.
  - rewrite frame_records_output. unfold current_frame.
    destruct (Hlive 0%nat ltac:(lia)) as [Hlo Hhi]. cbn [chain] in Hlo, Hhi.
    rewrite read_args_above by assumption.
    rewrite frames_above by assumption. reflexivity.
Qed.

End BacktraceProperties.

(** ** The properties at concrete lines and stacks *)

Lemma blank_line_ignored_witness :
  runcmd K0 0 line_blank 0 s0 = Some ([], 0) /\
  p_argv <$> runcmd_parse line_blank = Some [].
Proof.
  apply (blank_line_ignored K0 0 [" "%char; "009"%char; " "%char]
           ["x"%char] 0 s0).
  repeat constructor.
Defined.

Lemma parse_stops_at_terminator_witness :
  (p_pos (parsed_of line_stale) <= 4)%nat /\
  (p_pos (parsed_of line_stale) <= length line_stale)%nat /\
  forall i, (4 <= i)%nat ->
    p_buf (parsed_of line_stale) !! i = line_stale !! i.
Proof.
  apply (parse_stops_at_terminator line_stale (parsed_of line_stale) 4).
  - vm_compute. reflexivity.
  - vm_compute. reflexivity.
Defined.

Lemma saved_strings_are_arguments_witness :
  str_at (p_buf (parsed_of line_backtrace)) 2 <> EmptyString /\
  forall c,
    In c (list_ascii_of_string (str_at (p_buf (parsed_of line_backtrace)) 2)) ->
    c <> NUL /\ is_space c = false.
Proof.
  apply (saved_strings_are_arguments line_backtrace
           (parsed_of line_backtrace) 2).
  - vm_compute. reflexivity.
  - vm_compute. apply list_elem_of_here.
Defined.

Lemma registered_command_invoked_witness :
  runcmd_with (call_func K0 2) line_backtrace 0 s0
  = match call_func K0 2 mon_backtrace_fn 1 ["backtrace"%string] 0 s0 with
    | Some (out, r) =>
        Some (Invoke mon_backtrace_fn 1 ["backtrace"%string] 0 :: out, r)
    | None => None
    end.
Proof.
  apply (registered_command_invoked (call_func K0 2) line_backtrace 0 s0
           {| name := "backtrace"; desc := "Display stack backtrace";
              func := mon_backtrace_fn |} []).
  - vm_compute. do 2 apply list_elem_of_further. apply list_elem_of_here.
  - vm_compute. reflexivity.
  - vm_compute. lia.
Defined.

Lemma help_lists_commands_witness :
  exists out,
    runcmd K0 0 line_help 0 s0
    = Some (Invoke mon_help_fn 3 ["help"; "me"; "now"]%string 0 :: out, 0) /\
    map console_text out = map help_text commands /\
    length out = NCOMMANDS.
Proof.
  apply (help_lists_commands K0 0 line_help 0 s0 ["me"; "now"]%string).
  - vm_compute. reflexivity.
  - vm_compute. lia.
Defined.

Lemma at_most_one_handler_per_line_witness :
  existsb is_invoke
    (tail (Invoke mon_help_fn 3 ["help"; "me"; "now"]%string 0
           :: fst (mon_help 3 ["help"; "me"; "now"]%string 0)))
  = false.
Proof.
  apply (at_most_one_handler_per_line K0 0 line_help 0 s0 _ 0).
  vm_compute. reflexivity.
Defined.

Lemma saved_pointers_increase_witness :
  (0 + String.length (str_at (p_buf (parsed_of line_unknown)) 0) < 8)%nat.
Proof.
  apply (saved_pointers_increase line_unknown (parsed_of line_unknown)
           0 1 0 8).
  - vm_compute. reflexivity.
  - lia.
  - vm_compute. reflexivity.
  - vm_compute. reflexivity.
Defined.

(** The chain of the cyclic example goes round two frames for ever. *)
Lemma s_cyclic_chain (n : nat) :
  chain (unwind_memory K0 s_cyclic) n (unwind_start s_cyclic) <> sentinel K0.
Proof.
  assert (H : forall n,
    chain (unwind_memory K0 s_cyclic) n 0xf010ff78 <> sentinel K0 /\
    chain (unwind_memory K0 s_cyclic) n 0xf010ffb8 <> sentinel K0).
  { clear n. induction n as [|n [IH1 IH2]].
    - split; vm_compute; discriminate.
    - split; cbn [chain].
      + replace (chain_step (unwind_memory K0 s_cyclic) 0xf010ff78)
          with 0xf010ffb8 by (vm_compute; reflexivity).
        exact IH2.
      + replace (chain_step (unwind_memory K0 s_cyclic) 0xf010ffb8)
          with 0xf010ff78 by (vm_compute; reflexivity).
        exact IH1. }
  change (unwind_start s_cyclic) with 0xf010ff78. apply (H n).
Defined.

Lemma corrupted_chain_never_returns_witness :
  mon_backtrace K0 1000 1 ["backtrace"%string] 0 s_cyclic = None.
Proof.
  apply (corrupted_chain_never_returns K0 1 ["backtrace"%string] 0 s_cyclic
           s_cyclic_chain 1000%nat).
Defined.

Lemma sentinel_only_in_last_record_witness :
  0xf010fff8 = wrap32 (bootstacktop K0 - 8)
  <-> 3%nat = length (frame_records (backtrace_output K0 s0 2)).
Proof.
  apply (sentinel_only_in_last_record K0 2 1 ["backtrace"%string] 0 s0
           (backtrace_output K0 s0 2) 0 2
           {| frame_base := 0xf010fff8; return_address := 0xf0100b00;
              saved_args := [0; 0; 0; 0; 0] |}).
  - exact s0_backtrace.
  - vm_compute. reflexivity.
Defined.

Lemma s0_entry_depth : stack_depth K0 (memory s0) (unwind_start s0) 2.
Proof.
  split; [vm_compute; reflexivity|].
  intros k Hk. destruct k as [|[|k]]; [vm_compute; discriminate ..|lia].
Defined.

Lemma backtrace_reports_entry_stack_witness :
  exists out,
    mon_backtrace K0 2 1 ["backtrace"%string] 0 s0 = Some (out, 0) /\
    frame_records out
    = {| frame_base := unwind_start s0;
         return_address := wrap32 (ra_print_curr_trace K0);
         saved_args := read_args (memory s0) (unwind_start s0) |}
      :: frames (memory s0) 2 (unwind_start s0).
Proof.
  apply (backtrace_reports_entry_stack K0 2 1 ["backtrace"%string] 0 s0 2).
  - vm_compute. discriminate.
  - intros k Hk. destruct k as [|[|[|k]]]; [| | |lia];
      vm_compute; split; discriminate.
  - exact s0_entry_depth.
  - lia.
Defined.

(** ** Where the parsing loop stops and what it has passed *)

Module StopFacts.

Import ParseFacts TokenFacts OrderFacts.

Local Open Scope nat_scope.

(** Every first character of an argument that the loop has passed is a
    saved pointer. *)
Lemma parse_loop_complete buf0 fuel : forall buf p argv t,
  parse_inv buf0 buf p argv ->
  (forall q, q < p -> arg_start buf0 q -> q ∈ argv) ->
  parse_loop fuel buf p argv = Some t ->
  forall q, q < p_pos t -> arg_start buf0 q -> q ∈ p_argv t.
Proof.
  induction fuel as [|fuel IH]; intros buf p argv t Hinv Hall H;
    [discriminate|].
  cbn [parse_loop] in H.
  destruct (gobble (length buf) buf p) as [buf1 p1] eqn:Hg.
  destruct (parse_inv_gobble _ _ _ _ _ _ Hinv Hg) as [Hinv1 Hs].
  pose proof (gobble_spec _ _ _ _ _ Hg ltac:(lia))
    as (_ & Hp & Hin & _ & _).
  assert (Hall1 : forall q, q < p1 -> arg_start buf0 q -> q ∈ argv).
  { intros q Hq Hst. destruct (Nat.lt_ge_cases q p) as [Hlt|Hge].
    - apply Hall; assumption.
    - exfalso. destruct (Hin q ltac:(lia)) as [Hsp _].
      rewrite (inv_ahead _ _ _ _ Hinv q Hge) in Hsp.
      destruct Hst as [Hc _]. apply arg_char_spec in Hc.
      destruct Hc as [_ Hc]. congruence. }
  pose proof (inv_ahead _ _ _ _ Hinv1 p1 ltac:(lia)) as Hsame.
  destruct (Ascii.eqb_spec (deref buf1 p1) NUL) as [Hz|Hnz].
  - inversion H. exact Hall1.
  - destruct (Nat.eqb (length argv) (MAXARGS - 1)).
    + inversion H. exact Hall1.
    + assert (Hc : arg_char (deref buf0 p1) = true).
      { apply arg_char_spec. split; [congruence|exact Hs]. }
      apply (IH _ _ _ _ (parse_inv_arg _ _ _ _ Hinv1 Hc)); [|exact H].
      intros q Hq Hst.
      destruct (scan_arg_spec (length buf1) buf1 p1 ltac:(lia))
        as (_ & Hrun & _).
      apply elem_of_app.
      destruct (Nat.lt_trichotomy q p1) as [Hlt|[->|Hgt]].
      * left. apply Hall1; assumption.
      * right. apply list_elem_of_here.
      * exfalso. destruct Hst as [_ [H0|Hsp]]; [lia|].
        pose proof (Hrun (q - 1) ltac:(lia)) as Hprev.
        rewrite (inv_ahead _ _ _ _ Hinv1 (q - 1) ltac:(lia)) in Hprev.
        apply arg_char_spec in Hprev. destruct Hprev as [_ Hprev].
        congruence.
Qed.

Lemma runcmd_parse_complete buf t :
  runcmd_parse buf = Some t ->
  forall q, q < p_pos t -> arg_start buf q -> q ∈ p_argv t.
Proof.
  intros H. apply (parse_loop_complete buf MAXARGS buf 0 [] t).
  - apply parse_inv_init.
  - intros q Hq. lia.
  - exact H.
Qed.

(** The buffer the loop leaves, byte by byte. *)
Lemma parse_final_buffer buf t i c :
  parse_final buf t -> buf !! i = Some c ->
  p_buf t !! i = Some (if (i <? p_pos t) && is_space c then NUL else c).
Proof.
  intros (Hinv & _ & _) Hi.
  pose proof (inv_length _ _ _ _ Hinv) as Hlen.
  pose proof (lookup_lt_Some _ _ _ Hi) as Hlt.
  rewrite (lookup_deref (p_buf t) i) by lia.
  rewrite <- (deref_lookup _ _ _ Hi). f_equal.
  destruct (Nat.ltb_spec i (p_pos t)) as [Hb|Ha]; cbn [andb].
  - apply (inv_behind _ _ _ _ Hinv i Hb).
  - apply (inv_ahead _ _ _ _ Hinv i Ha).
Qed.

(** The place where the loop stops on a line that has no room left in
    [argv] is the first character of an argument. *)
Lemma parse_final_stop buf t :
  parse_final buf t ->
  if p_too_many t then
    length (p_argv t) = MAXARGS - 1 /\ arg_start buf (p_pos t)
  else deref buf (p_pos t) = NUL.
Proof.
  intros (Hinv & _ & Hex). destruct (p_too_many t); [|exact Hex].
  destruct Hex as [Hl Hc]. split; [exact Hl|]. split; [exact Hc|].
  destruct (inv_boundary _ _ _ _ Hinv) as [H0|[Hn|Hsp]];
    [left; exact H0|congruence|right; exact Hsp].
Qed.

Lemma arg_before_lt buf q q' : arg_before buf q q' -> q < q'.
Proof. intros (e & (Hlt & _) & He). lia. Qed.

End StopFacts.

(** ** The buffer and the pointers the parsing loop leaves *)

Section TokenizerEffect.

Import ParseFacts TokenFacts OrderFacts StopFacts.

(** C10, as amended: the parsing loop of [runcmd] always leaves, with a
    buffer of the same length.  On a line of at most [MAXARGS - 1] tokens
    it stops at the terminator of the line; on a line of more tokens it
    stops at the first character of the token for which [argv] has no
    room, with [MAXARGS - 1] pointers saved.  A character of the buffer
    has become NUL when it is whitespace before the place where the loop
    stopped, and is as it was otherwise, so the characters that are not
    whitespace are unchanged and so is everything from that place on.
    The saved pointers are, in increasing order, exactly the first
    characters of the maximal runs of characters other than whitespace
    that begin before that place, and the string at each is now that
    run. *)
Theorem tokenizer_overwrites_passed_whitespace (buf : list ascii) :
  exists t,
    runcmd_parse buf = Some t /\
    length (p_buf t) = length buf /\
    (p_too_many t = true <-> (MAXARGS - 1 < length (spec_tokens buf))%nat) /\
    (if p_too_many t then
       length (p_argv t) = (MAXARGS - 1)%nat /\ arg_start buf (p_pos t)
     else deref buf (p_pos t) = NUL) /\
    (forall i, (i < p_pos t)%nat -> deref buf i <> NUL) /\
    (forall i c, buf !! i = Some c ->
       p_buf t !! i
       = Some (if (i <? p_pos t)%nat && is_space c then NUL else c)) /\
    (forall q, q ∈ p_argv t <-> (q < p_pos t)%nat /\ arg_start buf q) /\
    (forall i j qi qj, (i < j)%nat ->
       p_argv t !! i = Some qi -> p_argv t !! j = Some qj ->
       (qi < qj)%nat) /\
    (forall q, q ∈ p_argv t ->
       str_at (p_buf t) q = take_word (drop q buf)).
Proof.
  destruct (runcmd_parse_final buf) as (t & Ht & Hfin).
  exists t. split; [exact Ht|].
  pose proof Hfin as (Hinv & _ & _).
  split; [exact (inv_length _ _ _ _ Hinv)|].
  split; [exact (parse_final_too_many buf t Hfin)|].
  split; [exact (parse_final_stop buf t Hfin)|].
  split; [intros i Hi; apply (inv_behind _ _ _ _ Hinv i Hi)|].
  split; [intros i c Hi; apply (parse_final_buffer buf t i c Hfin Hi)|].
  split; [|split].
  - intros q. split.
    + intros Hq.
      destruct (parse_final_arg buf t q Hfin Hq) as (Hlt & Hc & Hbd & _).
      split; [exact Hlt|]. split; assumption.
    + intros [Hlt Hst]. apply (runcmd_parse_complete buf t Ht q Hlt Hst).
  - intros i j qi qj Hij Hi Hj.
    apply (arg_before_lt buf).
    apply (StronglySorted_lookup _ _ _ _ _ _
             (runcmd_parse_order _ _ Ht) Hij Hi Hj).
  - intros q Hq. apply (parse_final_arg buf t q Hfin Hq).
Qed.

End TokenizerEffect.

(** C10 as stated fails on a line of 17 tokens: the blank at index 31
    stands before the first character of the 17th token, at index 32, and
    the parsing loop, which stops at the 16th token, leaves it a blank. *)
Lemma whitespace_before_token_counterexample :
  ~ (forall (buf : list ascii) (t : parsed) (i q : nat),
       runcmd_parse buf = Some t ->
       arg_start buf q ->
       (forall k, (k < q)%nat -> deref buf k <> NUL) ->
       (i < q)%nat ->
       is_space (deref buf i) = true ->
       deref (p_buf t) i = NUL).
Proof.
  intros H.
  specialize (H line17 (parsed_of line17) 31%nat 32%nat).
  assert (Hno : forall k, (k < 32)%nat -> deref line17 k <> NUL).
  { intros k Hk.
    do 32 (destruct k as [|k]; [vm_compute; discriminate|]). lia. }
  assert (Hst : arg_start line17 32).
  { split; [vm_compute; reflexivity|right; vm_compute; reflexivity]. }
  specialize (H eq_refl Hst Hno ltac:(lia) eq_refl).
  vm_compute in H. discriminate H.
Qed.
